(** * Distribution regression on streams: kernel matrices and evaluation metrics

    A shallow embedding of [utils/experiments.py] (kernel matrix
    construction and augmentation, the RMSE / R2 / MAPE evaluators, the
    experiment entry points) and of [src/kerES.py] ([gamma]).

    Numbers.  The Python code computes on [float64] arrays.  Two models of
    a float are used.  In the first, an [npfloat], a finite value is an
    exact real number (rounding and overflow are not modelled, and there
    is one zero), and the three non-finite values [+inf], [-inf] and
    [nan] follow IEEE 754, which is what numpy produces on a division by
    zero; it carries the statements on shapes, exceptions, signs and
    divisions by zero.  In the second, the evaluators run on IEEE 754
    binary64 numbers themselves (primitive floats, rounded to nearest),
    where the order of a sum and the rounding of a mean show.

    Exceptions.  A Python call either returns a value or raises; a raised
    exception is identified by the name of its class. *)

From Stdlib Require Import Floats.
From Stdlib Require Import Reals Lra Lia ZArith String List.
From stdpp Require Import base tactics option list strings gmap.

Open Scope R_scope.
Set Warnings "-inexact-float".

(** ** Python results *)

Inductive result (A : Type) : Type :=
| Ret (a : A)
| Raise (exc : string).
Arguments Ret {A} a.
Arguments Raise {A} exc.

#[global] Instance result_ret : MRet result := fun A a => Ret a.
#[global] Instance result_bind : MBind result := fun A B f m =>
  match m with
  | Ret a => f a
  | Raise e => Raise e
  end.
#[global] Instance result_fmap : FMap result := fun A B f m =>
  match m with
  | Ret a => Ret (f a)
  | Raise e => Raise e
  end.

Definition raises {A} (m : result A) (exc : string) : Prop := m = Raise exc.

(** [for x in xs: body], threading the state [s] and stopping at the
    first exception. *)
Fixpoint for_each {A S} (xs : list A) (body : A -> S -> result S) (s : S)
  : result S :=
  match xs with
  | [] => Ret s
  | x :: xs' => s' ← body x s; for_each xs' body s'
  end.

(** [range(n)] *)
Definition range (n : nat) : list nat := seq 0 n.

(** ** float64 values *)

Inductive npfloat : Type :=
| Fin (r : R)
| PInf
| NInf
| NaN.

Module np.

(** The sign of a real, by trichotomy. *)
Definition sign (r : R) : comparison :=
  match total_order_T r 0 with
  | inleft (left _) => Lt
  | inleft (right _) => Eq
  | inright _ => Gt
  end.

Definition add (x y : npfloat) : npfloat :=
  match x, y with
  | Fin a, Fin b => Fin (a + b)
  | NaN, _ | _, NaN => NaN
  | PInf, NInf | NInf, PInf => NaN
  | PInf, _ | _, PInf => PInf
  | NInf, _ | _, NInf => NInf
  end.

Definition neg (x : npfloat) : npfloat :=
  match x with
  | Fin a => Fin (- a)
  | PInf => NInf
  | NInf => PInf
  | NaN => NaN
  end.

Definition sub (x y : npfloat) : npfloat := add x (neg y).

(** [inf * s], for the sign [s] of the other factor. *)
Definition signed_inf (pos : bool) (s : comparison) : npfloat :=
  match s with
  | Eq => NaN
  | Gt => if pos then PInf else NInf
  | Lt => if pos then NInf else PInf
  end.

Definition mul (x y : npfloat) : npfloat :=
  match x, y with
  | Fin a, Fin b => Fin (a * b)
  | NaN, _ | _, NaN => NaN
  | PInf, Fin b => signed_inf true (sign b)
  | NInf, Fin b => signed_inf false (sign b)
  | Fin a, PInf => signed_inf true (sign a)
  | Fin a, NInf => signed_inf false (sign a)
  | PInf, PInf | NInf, NInf => PInf
  | PInf, NInf | NInf, PInf => NInf
  end.

(** [x / y].  A finite value divided by zero is [inf] with the sign of
    the numerator, and [0 / 0] is [nan]: numpy warns and goes on, it
    does not raise. *)
Definition div (x y : npfloat) : npfloat :=
  match x, y with
  | Fin a, Fin b =>
      match sign b with
      | Eq => match sign a with
              | Eq => NaN
              | Gt => PInf
              | Lt => NInf
              end
      | _ => Fin (a / b)
      end
  | NaN, _ | _, NaN => NaN
  | Fin _, (PInf | NInf) => Fin 0
  | PInf, Fin b => match sign b with Lt => NInf | _ => PInf end
  | NInf, Fin b => match sign b with Lt => PInf | _ => NInf end
  | (PInf | NInf), (PInf | NInf) => NaN
  end.

(** [np.abs] *)
Definition abs (x : npfloat) : npfloat :=
  match x with
  | Fin a => Fin (Rabs a)
  | PInf | NInf => PInf
  | NaN => NaN
  end.

(** [np.sqrt]: [nan] below zero. *)
Definition sqrt (x : npfloat) : npfloat :=
  match x with
  | Fin a => match sign a with
             | Lt => NaN
             | _ => Fin (R_sqrt.sqrt a)
             end
  | PInf => PInf
  | NInf | NaN => NaN
  end.

(** [x ** 2] *)
Definition square (x : npfloat) : npfloat := mul x x.

(** [np.sum] of a one-dimensional array. *)
Definition sum (a : list npfloat) : npfloat := foldr add (Fin 0) a.

(** [np.mean]: the sum over the number of entries, [nan] for an empty
    array. *)
Definition mean (a : list npfloat) : npfloat :=
  div (sum a) (Fin (INR (length a))).

(** [np.dot] of two one-dimensional arrays; numpy raises [ValueError]
    ("shapes not aligned") when the lengths differ. *)
Definition dot (a b : list npfloat) : result npfloat :=
  if decide (length a = length b)
  then Ret (sum (zip_with mul a b))
  else Raise "ValueError".

(** [a[order]] for an array of non-negative indices: numpy raises
    [IndexError] when an index is out of bounds. *)
Definition take {A} (a : list A) (order : list nat) : result (list A) :=
  mapM (fun i => match a !! i with
                 | Some x => Ret x
                 | None => Raise "IndexError"
                 end) order.

(** A Python index into a sequence of length [len]: a negative index
    counts from the end. *)
Definition norm_index (len : nat) (i : Z) : option nat :=
  let j := (if decide (i < 0)%Z then i + Z.of_nat len else i)%Z in
  if decide (0 <= j < Z.of_nat len)%Z then Some (Z.to_nat j) else None.

(** [np.zeros((rows, cols))] *)
Definition zeros (rows cols : nat) : list (list npfloat) :=
  replicate rows (replicate cols (Fin 0)).

(** [M[i][j]] and [M[i][j] = v] on a two-dimensional array, with Python
    indices. *)
Definition get2 (M : list (list npfloat)) (i j : Z) : result npfloat :=
  match norm_index (length M) i with
  | None => Raise "IndexError"
  | Some i' =>
      match M !! i' with
      | None => Raise "IndexError"
      | Some row =>
          match norm_index (length row) j with
          | None => Raise "IndexError"
          | Some j' =>
              match row !! j' with
              | Some v => Ret v
              | None => Raise "IndexError"
              end
          end
      end
  end.

Definition set2 (M : list (list npfloat)) (i j : Z) (v : npfloat)
  : result (list (list npfloat)) :=
  match norm_index (length M) i with
  | None => Raise "IndexError"
  | Some i' =>
      match M !! i' with
      | None => Raise "IndexError"
      | Some row =>
          match norm_index (length row) j with
          | None => Raise "IndexError"
          | Some j' => Ret (<[i' := <[j' := v]> row]> M)
          end
      end
  end.

(** [a.std()]: the square root of the mean squared deviation from the
    mean. *)
Definition std (a : list npfloat) : npfloat :=
  sqrt (mean (square <$> (abs <$> ((fun v => sub v (mean a)) <$> a)))).

End np.

Arguments np.add : simpl never.
Arguments np.sub : simpl never.
Arguments np.mul : simpl never.
Arguments np.div : simpl never.
Arguments np.sum : simpl never.
Arguments np.mean : simpl never.
Arguments np.sqrt : simpl never.
Arguments np.norm_index : simpl never.

(** A two-dimensional array is the list of its rows, all of one length;
    [[]] is the array of shape (0, 0). *)
Abbreviation matrix := (list (list npfloat)).

Definition is_matrix (rows cols : nat) (M : matrix) : Prop :=
  length M = rows /\ Forall (fun row => length row = cols) M.

(** [M[i][j]] for indices known to be in range. *)
Definition entry (M : matrix) (i j : nat) : option npfloat :=
  row ← M !! i; row !! j.

(** [X[i]] on a Python sequence, for [i] produced by [range]. *)
Definition index {A} (X : list A) (i : nat) : result A :=
  match X !! i with
  | Some x => Ret x
  | None => Raise "IndexError"
  end.

(** Assignment to a slice, [M[:r, :c] = V]: numpy broadcasts [V] to the
    shape (r, c), stretching an axis of length one, and raises
    [ValueError] when it cannot. *)
Definition broadcast_axis {A} (n : nat) (l : list A) : result (list A) :=
  if decide (length l = n) then Ret l
  else match l with
       | [x] => Ret (replicate n x)
       | _ => Raise "ValueError"
       end.

Definition broadcast_to (r c : nat) (V : matrix) : result matrix :=
  rows ← mapM (broadcast_axis c) V; broadcast_axis r rows.

Definition assign_block (M : matrix) (r c : nat) (V : matrix)
  : result matrix :=
  B ← broadcast_to r c V;
  Ret (zip_with (fun new old => new ++ drop c old) B (take r M) ++ drop r M).

(** ** Sorting indices *)

(** [np.argsort]: the indices that sort an array.  numpy offers several
    sorting kinds, which may order equal entries differently; each of
    them returns a permutation of [range(len(a))]. *)
Class Argsort := {
  argsort : list npfloat -> list nat;
  argsort_perm : forall a, argsort a ≡ₚ seq 0 (length a)
}.

#[global] Instance Rle_decision : RelDecision Rle := Rle_dec.

(** The order numpy sorts floats by: ascending, [nan] last. *)
Definition np_leb (x y : npfloat) : bool :=
  match x, y with
  | _, NaN => true
  | NaN, _ => false
  | NInf, _ => true
  | _, NInf => false
  | _, PInf => true
  | PInf, _ => false
  | Fin a, Fin b => bool_decide (a <= b)
  end.

(** A stable sort ([kind='stable']) of the indexed entries, by
    insertion from the right. *)
Fixpoint insert_sorted (x : nat * npfloat) (l : list (nat * npfloat))
  : list (nat * npfloat) :=
  match l with
  | [] => [x]
  | y :: l' =>
      if np_leb x.2 y.2 then x :: y :: l' else y :: insert_sorted x l'
  end.

Definition argsort_stable (a : list npfloat) : list nat :=
  (foldr insert_sorted [] (zip (seq 0 (length a)) a)).*1.

(** ** Calls into the rest of the system *)

(** The Gaussian-process modules [GP_models.*] and the plotting
    libraries are not part of the sources modelled here.  A call into
    them is recorded as an event, and what the calls return is given by
    a [GP_backend]. *)
Inductive gp_module : Type :=
| GP_naive
| GP_sig
| GP_sig_ARD
| GP_sig_ARD_full.

Inductive event : Type :=
| Plot (what : string)
| GP_init (m : gp_module) (param_list : list string)
| GP_get_K (m : gp_module)
| Train (m : gp_module) (steps : Z) (plot : bool)
| Predict (m : gp_module) (method : string).

(** A posterior mean (a two-dimensional array, one row per queried
    sample) with its standard deviations. *)
Record prediction : Type := {
  mu : matrix;
  stdv : list npfloat
}.

Record GP_backend : Type := {
  predict_test : prediction;
  predict_train : prediction;
  fitted_lengthscales : list npfloat
}.

(** A Python value that an entry point puts in its result tuple. *)
Inductive pyval : Type :=
| PyFloat (v : npfloat)
| PyArray (a : list npfloat).

(** A computation that may raise and that records its calls: the trace
    survives an exception. *)
Definition prog (A : Type) : Type := list event -> result A * list event.

#[global] Instance prog_ret : MRet prog := fun A a tr => (Ret a, tr).
#[global] Instance prog_bind : MBind prog := fun A B f m tr =>
  match m tr with
  | (Ret a, tr') => f a tr'
  | (Raise e, tr') => (Raise e, tr')
  end.

Definition lift {A} (r : result A) : prog A := fun tr => (r, tr).

Definition call (ev : event) : prog unit := fun tr => (Ret (), tr ++ [ev]).

Definition when (b : bool) (m : prog unit) : prog unit :=
  if b then m else mret ().

(** [a[idx]] for a list of Python indices: the selected rows. *)
Definition fancy {A} (a : list A) (idx : list Z) : result (list A) :=
  mapM (fun i => match np.norm_index (length a) i ≫= (a !!.) with
                 | Some x => Ret x
                 | None => Raise "IndexError"
                 end) idx.

(** [a[:, 0]]: the first column.  (The number of columns of an array
    without rows is not represented; its first column is empty.) *)
Definition col0 (a : matrix) : result (list npfloat) :=
  mapM (fun row => index row 0) a.

(** ** utils/experiments.py: kernel matrices *)

Module experiments.

Definition precompute_K (X : list (list npfloat)) : result matrix :=
  let K_precomputed := np.zeros (length X) (length X) in
  for_each (range (length X)) (fun i K_precomputed =>
    for_each (range (i + 1)) (fun j K_precomputed =>
      Xi ← index X i;
      Xj ← index X j;
      d ← np.dot Xi Xj;
      K_precomputed ←
        np.set2 K_precomputed (Z.of_nat i) (Z.of_nat j) (np.add (Fin 1) d);
      v ← np.get2 K_precomputed (Z.of_nat i) (Z.of_nat j);
      np.set2 K_precomputed (Z.of_nat j) (Z.of_nat i) v)
    K_precomputed)
  K_precomputed.

Definition augment_K_precomputed (K_precomputed : matrix)
    (X_train : list (list npfloat)) (x_test : list npfloat) : result matrix :=
  let n := length X_train in
  let K_aug := np.zeros (n + 1) (n + 1) in
  K_aug ← assign_block K_aug n n K_precomputed;
  K_aug ← for_each (range n) (fun i K_aug =>
    Xi ← index X_train i;
    d ← np.dot Xi x_test;
    K_aug ← np.set2 K_aug (-1) (Z.of_nat i) (np.add (Fin 1) d);
    v ← np.get2 K_aug (-1) (Z.of_nat i);
    np.set2 K_aug (Z.of_nat i) (-1) v) K_aug;
  d ← np.dot x_test x_test;
  np.set2 K_aug (-1) (-1) (np.add (Fin 1) d).

(** *** The evaluators *)

Section evaluators.
Context `{Argsort}.

(** An expression [y_[order]] that the source writes twice is evaluated
    once here: indexing reads the array and changes nothing. *)

Definition compute_rmse (y_ pred : list npfloat) : result npfloat :=
  let order := argsort y_ in
  ys ← np.take y_ order;
  ps ← np.take pred order;
  Ret (np.sqrt (np.mean (np.square <$> zip_with np.sub ys ps))).

Definition compute_MAPE (y_ pred : list npfloat) : result npfloat :=
  let order := argsort y_ in
  ys ← np.take y_ order;
  ps ← np.take pred order;
  Ret (np.mean (zip_with np.div (np.abs <$> zip_with np.sub ys ps) ys)).

(** The two sums of [compute_r2], on the arrays already put in order. *)
Definition r2_num (ps ys : list npfloat) : npfloat :=
  np.sum (np.square <$> zip_with np.sub ps ys).

Definition r2_denum (ys : list npfloat) : npfloat :=
  np.sum (np.square <$> ((fun v => np.sub v (np.mean ys)) <$> ys)).

Definition compute_r2 (y_ pred : list npfloat) : result npfloat :=
  let order := argsort y_ in
  ps ← np.take pred order;
  ys ← np.take y_ order;
  let num := r2_num ps ys in
  let denum := r2_denum ys in
  Ret (np.sub (Fin 1) (np.div num denum)).

End evaluators.

(** *** Diagnostic plot *)

Section entry_points.
Context `{Argsort}.
Variable bag : Type.
Variable gp : GP_backend.

(** [plot_fit(ax, y_, pred, std=std, sklearn=True)], as the entry
    points call it.  The calls into matplotlib are events; [min(y_)]
    raises [ValueError] on an empty sequence. *)
Definition plot_fit (y_ pred std : list npfloat) : prog unit :=
  lift (match y_ with [] => Raise "ValueError" | _ => Ret () end);;
  call (Plot "plot");;
  let order := argsort y_ in
  ys ← lift (np.take y_ order);
  ps ← lift (np.take pred order);
  call (Plot "scatter");;
  ss ← lift (np.take std order);
  call (Plot "errorbar");;
  let RMSE := np.sqrt (np.mean (np.square <$> zip_with np.sub ys ps)) in
  let num := r2_num ps ys in
  let denum := r2_denum ys in
  let R_squared := np.sub (Fin 1) (np.div num denum) in
  let MAPE :=
    np.mean (zip_with np.div (np.abs <$> zip_with np.sub ys ps) ys) in
  call (Plot "set_ylabel");;
  call (Plot "set_xlabel");;
  call (Plot "text");;
  call (Plot "text");;
  call (Plot "text").

(** [f(y[:, 0], mu[:, 0])] *)
Definition on_columns (f : list npfloat -> list npfloat -> result npfloat)
    (y m : matrix) : prog npfloat :=
  a ← lift (col0 y); b ← lift (col0 m); lift (f a b).

(** *** Entry points *)

Definition naive_experiment (x : list bag) (y : matrix)
    (train_index test_index : list Z) (param_init : list npfloat)
    (plot : bool) : prog (list pyval) :=
  when plot (call (Plot "subplots"));;
  y_train ← lift (fancy y train_index);
  y_test ← lift (fancy y test_index);
  x_train ← lift (fancy x train_index);
  x_test ← lift (fancy x test_index);
  lift (fancy param_init [0; 1; 2; 3]%Z);;
  call (GP_init GP_naive ["lengthscale"; "variance"; "noise"]);;
  (if plot then call (Train GP_naive 2000 plot)
   else call (Train GP_naive 2000 false));;
  call (Predict GP_naive "predict");;
  let mu_test := mu (predict_test gp) in
  let stdv_test := stdv (predict_test gp) in
  call (Predict GP_naive "predict");;
  let mu_train := mu (predict_train gp) in
  let stdv_train := stdv (predict_train gp) in
  R2_train ← on_columns compute_r2 y_train mu_train;
  R2_test ← on_columns compute_r2 y_test mu_test;
  RMSE_train ← on_columns compute_rmse y_train mu_train;
  RMSE_test ← on_columns compute_rmse y_test mu_test;
  MAPE_train ← on_columns compute_MAPE y_train mu_train;
  MAPE_test ← on_columns compute_MAPE y_test mu_test;
  when plot (
    a ← lift (col0 y_train); b ← lift (col0 mu_train);
    plot_fit a b stdv_train;;
    a ← lift (col0 y_test); b ← lift (col0 mu_test);
    plot_fit a b stdv_test;;
    call (Plot "show"));;
  mret [PyFloat RMSE_train; PyFloat R2_train; PyFloat MAPE_train;
        PyFloat RMSE_test; PyFloat R2_test; PyFloat MAPE_test].

Definition experiment_precomputed (K_precomputed : matrix) (y : matrix)
    (train_index test_index : list Z) (param_init : list npfloat)
    (RBF plot : bool) : prog (list pyval) :=
  when plot (call (Plot "subplots"));;
  y_train ← lift (fancy y train_index);
  y_test ← lift (fancy y test_index);
  lift (fancy param_init [0; 1; 2]%Z);;
  (if RBF then call (GP_init GP_sig ["lengthscale"; "variance"; "noise"])
   else call (GP_init GP_sig ["variance"; "noise"]));;
  call (GP_get_K GP_sig);;
  call (GP_get_K GP_sig);;
  call (GP_get_K GP_sig);;
  (if plot then call (Train GP_sig 20000 plot)
   else call (Train GP_sig 20000 plot));;
  (if RBF then
     call (Predict GP_sig "get_K_RBF_Sig");;
     call (Predict GP_sig "dummy_predict");;
     call (Predict GP_sig "dummy_predict")
   else
     call (Predict GP_sig "dummy_predict");;
     call (Predict GP_sig "dummy_predict"));;
  let mu_test := mu (predict_test gp) in
  let stdv_test := stdv (predict_test gp) in
  let mu_train := mu (predict_train gp) in
  let stdv_train := stdv (predict_train gp) in
  R2_train ← on_columns compute_r2 y_train mu_train;
  RMSE_train ← on_columns compute_rmse y_train mu_train;
  MAPE_train ← on_columns compute_MAPE y_train mu_train;
  R2_test ← on_columns compute_r2 y_test mu_test;
  RMSE_test ← on_columns compute_rmse y_test mu_test;
  MAPE_test ← on_columns compute_MAPE y_test mu_test;
  when plot (
    a ← lift (col0 y_train); b ← lift (col0 mu_train);
    plot_fit a b stdv_train;;
    a ← lift (col0 y_test); b ← lift (col0 mu_test);
    plot_fit a b stdv_test;;
    lift (col0 y_test);;
    call (Plot "show"));;
  mret [PyFloat RMSE_train; PyFloat R2_train; PyFloat MAPE_train;
        PyFloat RMSE_test; PyFloat R2_test; PyFloat MAPE_test].

(** In [experiment_ARD] the name [axs] is bound only when [plot] is
    set, and both calls of [train] read [axs[0]]: without [plot] the
    read raises [UnboundLocalError] before [train] is entered. *)
Definition experiment_ARD (data : list bag) (y : matrix)
    (train_index test_index : list Z) (param_init : list npfloat)
    (RBF plot full : bool) : prog (list pyval) :=
  y_train ← lift (fancy y train_index);
  y_test ← lift (fancy y test_index);
  x_train ← lift (fancy data train_index);
  x_test ← lift (fancy data test_index);
  when plot (call (Plot "subplots"));;
  lift (fancy param_init [0; 1; 2]%Z);;
  let m := if full then GP_sig_ARD_full else GP_sig_ARD in
  (if RBF then call (GP_init m ["lengthscale"; "variance"; "noise"])
   else call (GP_init m ["lengthscale"; "noise"]));;
  lift (if plot then Ret () else Raise "UnboundLocalError");;
  (if full then
     call (Train GP_sig_ARD_full 3000 plot);;
     call (Predict GP_sig_ARD_full "transform_softplus")
   else call (Train GP_sig_ARD 3000 plot));;
  let lengthscales := fitted_lengthscales gp in
  call (Predict m "predict");;
  let mu_test := mu (predict_test gp) in
  let stdv_test := stdv (predict_test gp) in
  call (Predict m "predict_on_training");;
  let mu_train := mu (predict_train gp) in
  let stdv_train := stdv (predict_train gp) in
  R2_train ← on_columns compute_r2 y_train mu_train;
  RMSE_train ← on_columns compute_rmse y_train mu_train;
  R2_test ← on_columns compute_r2 y_test mu_test;
  RMSE_test ← on_columns compute_rmse y_test mu_test;
  when plot (
    a ← lift (col0 y_train); b ← lift (col0 mu_train);
    plot_fit a b stdv_train;;
    a ← lift (col0 y_test); b ← lift (col0 mu_test);
    plot_fit a b stdv_test;;
    call (Plot "show"));;
  if full then
    mret [PyFloat RMSE_train; PyFloat R2_train;
          PyFloat RMSE_test; PyFloat R2_test; PyArray lengthscales]
  else
    mret [PyFloat RMSE_train; PyFloat R2_train;
          PyFloat RMSE_test; PyFloat R2_test].

(** [naive_experiment_arbitrary]: the bags are a Python list and the
    split is a position, [y[:train_index]] and [y[train_index:]].  Its
    calls go to [GP_naive_arbitrary_items]; only what it returns or
    raises is modelled here, not its trace. *)
Definition slice_stop (len : nat) (k : Z) : nat :=
  Z.to_nat (Z.min (Z.max (if decide (k < 0)%Z then k + Z.of_nat len else k) 0)
                  (Z.of_nat len)).

Definition result_of {A} (m : prog A) : result A := (m []).1.

Definition naive_experiment_arbitrary (x : list bag) (y : matrix)
    (train_index : Z) (param_init : list npfloat) (plot : bool)
  : result (list pyval) :=
  let y_train := take (slice_stop (length y) train_index) y in
  let y_test := drop (slice_stop (length y) train_index) y in
  let x_train := take (slice_stop (length x) train_index) x in
  let x_test := drop (slice_stop (length x) train_index) x in
  fancy param_init [0; 1; 2; 3]%Z;;
  let mu_test := mu (predict_test gp) in
  let stdv_test := stdv (predict_test gp) in
  let mu_train := mu (predict_train gp) in
  let stdv_train := stdv (predict_train gp) in
  R2_train ← result_of (on_columns compute_r2 y_train mu_train);
  R2_test ← result_of (on_columns compute_r2 y_test mu_test);
  RMSE_train ← result_of (on_columns compute_rmse y_train mu_train);
  RMSE_test ← result_of (on_columns compute_rmse y_test mu_test);
  MAPE_train ← result_of (on_columns compute_MAPE y_train mu_train);
  MAPE_test ← result_of (on_columns compute_MAPE y_test mu_test);
  (if plot then
     a ← col0 y_train; b ← col0 mu_train;
     result_of (plot_fit a b stdv_train);;
     a ← col0 y_test; b ← col0 mu_test;
     result_of (plot_fit a b stdv_test)
   else Ret ());;
  Ret [PyFloat RMSE_train; PyFloat R2_train; PyFloat MAPE_train;
       PyFloat RMSE_test; PyFloat R2_test; PyFloat MAPE_test].

End entry_points.

End experiments.

(** ** src/kerES.py *)

Module kerES.

(** [gamma(l)]: the body is [return l]; the conversion of the docstring
    stands after it, commented out. *)
Definition gamma (l : npfloat) : npfloat := l.

(** The conversion that the docstring of [gamma] describes,
    [gamma = 1 / (2 l^2)]. *)
Definition gamma_docstring (l : npfloat) : npfloat :=
  np.div (Fin 1) (np.mul (Fin 2) (np.square l)).

(** *** The regression pipeline *)

(** A value of a hyperparameter grid. *)
Inductive hyper : Type :=
| HStr (s : string)
| HNum (v : npfloat).

(** The default grid of the kernel-ridge mode. *)
Definition krr_default_grid : gmap string (list hyper) :=
  {[ "clf__kernel" := [HStr "rbf"];
     "clf__gamma" :=
       HNum <$> [gamma (Fin 1e-3); gamma (Fin 1e-2); gamma (Fin 1e-1);
                 gamma (Fin 1); gamma (Fin 1e1); gamma (Fin 1e2);
                 gamma (Fin 1e-3)];
     "clf__alpha" :=
       HNum <$> [Fin 1e-3; Fin 1e-2; Fin 1e-1; Fin 1; Fin 1e1; Fin 1e2;
                 Fin 1e3];
     "expected_signature_transform__order" := [HNum (Fin 2); HNum (Fin 3)]
  ]}.

(** The grid that the kernel-ridge mode hands to the search: the check
    that the user gave no key outside the default ones, then
    [parameters.update(grid)]. *)
Definition krr_parameters (grid : gmap string (list hyper))
  : result (gmap string (list hyper)) :=
  let parameters := krr_default_grid in
  if decide (size (dom parameters ∩ dom grid) = size (dom grid))
  then Ret (grid ∪ parameters)
  else Raise "AssertionError".

Section model.
(** The time series of a bag, with [shape[1]] of each, and the parts of
    the pipeline that are not among the sources: the two embeddings of
    [sklearn_transformers], and one trial of the nested
    cross-validation (the split with [random_state=i], the grid search,
    the fit and the mean squared error of its predictions). *)
Variable item : Type.
Variable shape1 : item -> nat.
Variable LeadLag_fit_transform : list Z -> list (list item) -> list (list item).
Variable AddTime_fit_transform : list (list item) -> list (list item).
Variable trial_mse :
  gmap string (list hyper) -> list (list item) -> list npfloat -> nat -> npfloat.

(** [model(X, y, ll, at, mode, NUM_TRIALS, cv, grid)].  In the mode
    'svr' the default grid is a list holding one dict, and the check of
    the user's keys calls [parameters.keys()] on that list. *)
Definition model (X : list (list item)) (y : list npfloat)
    (ll : option (list Z)) (at_ : bool) (mode : string) (NUM_TRIALS : Z)
    (grid : gmap string (list hyper)) : result (npfloat * npfloat) :=
  (if decide (mode ∈ ["svr"; "krr"]) then Ret ()
   else Raise "AssertionError");;
  X0 ← index X 0;
  x00 ← index X0 0;
  (if decide (shape1 x00 = 1%nat)
   then if decide (is_Some ll \/ at_ = true) then Ret ()
        else Raise "AssertionError"
   else Ret ());;
  let X := match ll with
           | Some l => LeadLag_fit_transform l X
           | None => X
           end in
  let X := if at_ then AddTime_fit_transform X else X in
  if decide (mode = "krr") then
    parameters ← krr_parameters grid;
    (if decide (NUM_TRIALS < 0)%Z then Raise "ValueError" else Ret ());;
    let scores :=
      (fun i => trial_mse parameters X y i) <$> range (Z.to_nat NUM_TRIALS) in
    Ret (np.mean scores, np.std scores)
  else
    Raise "AttributeError".

End model.

End kerES.

(** ** The evaluators in float64 arithmetic *)

(** The evaluators once more, over the operations that they apply to
    their arrays.  [experiments.compute_rmse], [experiments.compute_MAPE]
    and [experiments.compute_r2] are these functions at the exact
    arithmetic of [np]; the code runs them at the binary64 arithmetic of
    [np64] below. *)
Module evaluators.

Class Arith (F : Type) : Type := {
  one : F;
  sub : F -> F -> F;
  div : F -> F -> F;
  abs : F -> F;
  square : F -> F;
  sqrt : F -> F;
  sum : list F -> F;
  mean : list F -> F
}.

Section evaluators.
Context {F : Type} (A : Arith F) (argsort : list F -> list nat).

Definition compute_rmse (y_ pred : list F) : result F :=
  let order := argsort y_ in
  ys ← np.take y_ order;
  ps ← np.take pred order;
  Ret (sqrt (mean (square <$> zip_with sub ys ps))).

Definition compute_MAPE (y_ pred : list F) : result F :=
  let order := argsort y_ in
  ys ← np.take y_ order;
  ps ← np.take pred order;
  Ret (mean (zip_with div (abs <$> zip_with sub ys ps) ys)).

Definition r2_num (ps ys : list F) : F :=
  sum (square <$> zip_with sub ps ys).

Definition r2_denum (ys : list F) : F :=
  sum (square <$> ((fun v => sub v (mean ys)) <$> ys)).

Definition compute_r2 (y_ pred : list F) : result F :=
  let order := argsort y_ in
  ps ← np.take pred order;
  ys ← np.take y_ order;
  let num := r2_num ps ys in
  let denum := r2_denum ys in
  Ret (sub one (div num denum)).

End evaluators.

End evaluators.

(** The exact arithmetic of [np]. *)
Definition exact_arith : evaluators.Arith npfloat := {|
  evaluators.one := Fin 1;
  evaluators.sub := np.sub;
  evaluators.div := np.div;
  evaluators.abs := np.abs;
  evaluators.square := np.square;
  evaluators.sqrt := np.sqrt;
  evaluators.sum := np.sum;
  evaluators.mean := np.mean
|}.

(** numpy on [float64] arrays: IEEE 754 binary64 numbers, each operation
    rounded to nearest, ties to even.  A decimal literal denotes the
    nearest binary64 number, as it does in Python. *)
Module np64.

(** [x ** 2] *)
Definition square (x : float) : float := (x * x)%float.

(** [np.sum] of a one-dimensional array of fewer than eight entries:
    numpy adds them from left to right, starting from zero.  (It adds a
    longer array in blocks, so in another order; what is stated below
    for arrays of any length takes the reduction as a parameter.) *)
Definition add_reduce (a : list float) : float :=
  fold_left PrimFloat.add a 0%float.

(** The number of entries of an array, as a float. *)
Definition count (n : nat) : float :=
  PrimFloat.of_uint63 (Uint63.of_Z (Z.of_nat n)).

(** [np.mean]: the sum divided by the number of entries. *)
Definition mean (reduce : list float -> float) (a : list float) : float :=
  (reduce a / count (length a))%float.

Definition arithmetic (reduce : list float -> float)
  : evaluators.Arith float := {|
  evaluators.one := 1%float;
  evaluators.sub := PrimFloat.sub;
  evaluators.div := PrimFloat.div;
  evaluators.abs := PrimFloat.abs;
  evaluators.square := square;
  evaluators.sqrt := PrimFloat.sqrt;
  evaluators.sum := reduce;
  evaluators.mean := mean reduce
|}.

(** The order numpy sorts floats by: ascending, [nan] last. *)
Definition lt (x y : float) : bool :=
  (x <? y)%float || (PrimFloat.is_nan y && negb (PrimFloat.is_nan x)).

(** A stable sort of the indexed entries, by insertion from the right. *)
Fixpoint insert_sorted (x : nat * float) (l : list (nat * float))
  : list (nat * float) :=
  match l with
  | [] => [x]
  | y :: l' =>
      if lt y.2 x.2 then y :: insert_sorted x l' else x :: y :: l'
  end.

Definition argsort (a : list float) : list nat :=
  (foldr insert_sorted [] (zip (seq 0 (length a)) a)).*1.

End np64.

(** The arithmetic of the evaluators on short [float64] arrays. *)
Definition binary64 : evaluators.Arith float :=
  np64.arithmetic np64.add_reduce.

(** ** Definitions for the statements *)

(** The shifted linear kernel, as [precompute_K] computes an entry. *)
Definition kernel (a b : list npfloat) : npfloat :=
  np.add (Fin 1) (np.sum (zip_with np.mul a b)).

Definition row_of (X : list (list npfloat)) (i : nat) : list npfloat :=
  default [] (X !! i).

(** A vector of real numbers as a float array, and the inner product of
    two real vectors. *)
Definition reals (a : list R) : list npfloat := Fin <$> a.

Definition inner (a b : list R) : R := foldr Rplus 0 (zip_with Rmult a b).

(** [a[p]] for real vectors: "a composed with p". *)
Definition permute (p : list nat) (a : list R) : list R :=
  (fun i => nth i a 0) <$> p.

(** The three statistics computed on the arrays as given, in the words
    of the specification: no reordering. *)
Definition rmse_of (y pred : list npfloat) : npfloat :=
  np.sqrt (np.mean (np.square <$> zip_with np.sub y pred)).

Definition mape_of (y pred : list npfloat) : npfloat :=
  np.mean (zip_with np.div (np.abs <$> zip_with np.sub y pred) y).

Definition r2_of (y pred : list npfloat) : npfloat :=
  np.sub (Fin 1)
    (np.div (experiments.r2_num pred y) (experiments.r2_denum y)).

(** The same statistics as functions of the list of pairs
    (target, prediction). *)
Definition rmse_pairs (zs : list (npfloat * npfloat)) : npfloat :=
  np.sqrt (np.mean ((fun z => np.square (np.sub z.1 z.2)) <$> zs)).

Definition mape_pairs (zs : list (npfloat * npfloat)) : npfloat :=
  np.mean ((fun z => np.div (np.abs (np.sub z.1 z.2)) z.1) <$> zs).

Definition r2_pairs (zs : list (npfloat * npfloat)) : npfloat :=
  np.sub (Fin 1)
    (np.div (np.sum ((fun z => np.square (np.sub z.2 z.1)) <$> zs))
            (experiments.r2_denum (zs.*1))).

Definition Rsum (l : list R) : R := foldr Rplus 0 l.

Definition Rmean (l : list R) : R := Rsum l / INR (length l).

(** The ratios [|y - p| / y] that MAPE averages. *)
Definition ape (y pred : list R) : list R :=
  zip_with (fun a b => Rabs (a - b) / a) y pred.

(** The residual and the total (centered) sums of squares of R2. *)
Definition ss_res (y pred : list R) : R :=
  Rsum (zip_with (fun a b => (b - a) * (b - a)) y pred).

Definition ss_tot (y : list R) : R :=
  Rsum ((fun v => (v - Rmean y) * (v - Rmean y)) <$> y).

Definition ape_float (a b : R) : npfloat :=
  np.div (np.abs (np.sub (Fin a) (Fin b))) (Fin a).

(** The tuples of metrics, from the first columns of the targets and of
    the predicted means. *)
Definition six_metrics (yt mt yte mte : list npfloat) : list pyval :=
  [PyFloat (rmse_of yt mt); PyFloat (r2_of yt mt); PyFloat (mape_of yt mt);
   PyFloat (rmse_of yte mte); PyFloat (r2_of yte mte);
   PyFloat (mape_of yte mte)].

Definition four_metrics (yt mt yte mte : list npfloat) : list pyval :=
  [PyFloat (rmse_of yt mt); PyFloat (r2_of yt mt);
   PyFloat (rmse_of yte mte); PyFloat (r2_of yte mte)].

(** A small data set: two samples, the first for training and the
    second for testing, and a backend that predicts the targets. *)
Definition toy_y : matrix := [[Fin 1]; [Fin 2]].

Definition toy_gp : GP_backend :=
  {| predict_test := {| mu := [[Fin 2]]; stdv := [Fin 0] |};
     predict_train := {| mu := [[Fin 1]]; stdv := [Fin 0] |};
     fitted_lengthscales := [Fin 1] |}.

(** A training call with a step budget other than [b] does not occur. *)
Definition budget_is (b : Z) (ev : event) : Prop :=
  match ev with
  | Train _ steps _ => steps = b
  | _ => True
  end.

(** [m] adds to the trace only events that satisfy [P]. *)
Definition emits (P : event -> Prop) {A} (m : prog A) : Prop :=
  forall tr, Forall P tr -> Forall P (m tr).2.

(** Modelled from the spec: the trainer [train(model, num_steps, ...)]
    of the [GP_models] modules, which is not among the sources.  The
    specification (4.4) describes it: a fixed number of update steps
    against the objective, each updating the hyperparameters in place,
    the objective of each step recorded for the learning curve; no
    convergence check; a step with a non-finite objective is recorded
    and training continues. *)
Fixpoint train {theta : Type} (objective : theta -> npfloat)
    (update : theta -> theta) (num_steps : nat) (th : theta)
    (curve : list npfloat) : theta * list npfloat :=
  match num_steps with
  | O => (th, curve)
  | S k => train objective update k (update th) (curve ++ [objective th])
  end.

(** [ascending lt l]: no entry of [l] is below an earlier one, in the
    order [lt] of a sort. *)
Definition ascending {F} (lt : F -> F -> Prop) (l : list F) : Prop :=
  ForallOrdPairs (fun a b => ~ lt b a) l.

(** [no_ties lt l]: of two entries of [l] at different places, one is
    below the other. *)
Definition no_ties {F} (lt : F -> F -> Prop) (l : list F) : Prop :=
  ForallOrdPairs (fun a b => lt a b \/ lt b a) l.

(** [argsort] sorts the array [a]: it returns a permutation of the
    indices of [a] that puts the entries in ascending order. *)
Definition sorts {F} (lt : F -> F -> Prop) (argsort : list F -> list nat)
    (a : list F) : Prop :=
  argsort a ≡ₚ seq 0 (length a) /\
  forall ys, np.take a (argsort a) = Ret ys -> ascending lt ys.

(** The place of a float in the order of the sort, read from its
    IEEE 754 datum: [-inf], the negative numbers, the zeros, the
    positive numbers, [+inf], [nan]. *)
Definition sort_key (f : spec_float) : Z * Z * Z :=
  match f with
  | S754_infinity true => (0, 0, 0)
  | S754_finite true m e => (1, - e, Z.neg m)
  | S754_zero _ => (2, 0, 0)
  | S754_finite false m e => (3, e, Z.pos m)
  | S754_infinity false => (4, 0, 0)
  | S754_nan => (5, 0, 0)
  end%Z.

Definition key_lt (a b : Z * Z * Z) : Prop :=
  (a.1.1 < b.1.1 \/
   (a.1.1 = b.1.1 /\ (a.1.2 < b.1.2 \/ (a.1.2 = b.1.2 /\ a.2 < b.2))))%Z.

(** The entries of an indexed list are in ascending order. *)
Definition ascending_pairs (l : list (nat * float)) : Prop :=
  ascending (fun a b => np64.lt a b = true) l.*2.

(** A float that is not a negative number: a finite value at least 0,
    [+inf] or [nan]. *)
Definition not_negative (v : npfloat) : Prop :=
  match v with
  | Fin r => 0 <= r
  | PInf | NaN => True
  | NInf => False
  end.

(** A float that is not a number above 1: a finite value at most 1,
    [-inf] or [nan]. *)
Definition at_most_one (v : npfloat) : Prop :=
  match v with
  | Fin r => r <= 1
  | NInf | NaN => True
  | PInf => False
  end.

(** ** The stable argsort *)

Lemma insert_sorted_perm x l : insert_sorted x l ≡ₚ x :: l.
Proof.
  induction l as [|y l IH]; simpl; [done|].
  destruct (np_leb x.2 y.2); [done|].
  rewrite IH. apply Permutation_swap.
Qed.

Lemma argsort_stable_perm a : argsort_stable a ≡ₚ seq 0 (length a).
Proof.
  unfold argsort_stable.
  assert (H : forall l : list (nat * npfloat), foldr insert_sorted [] l ≡ₚ l).
  { induction l as [|x l IH]; simpl; [done|].
    by rewrite insert_sorted_perm, IH. }
  rewrite H. rewrite fst_zip; [done|]. by rewrite length_seq.
Qed.

#[global] Instance stable_argsort : Argsort :=
  {| argsort := argsort_stable; argsort_perm := argsort_stable_perm |}.

Example argsort_stable_sorts :
  argsort_stable (reals [3; 1; 2]) = [1; 2; 0]%nat.
Proof.
  unfold argsort_stable. simpl.
  repeat first [ rewrite bool_decide_eq_true_2 by lra
               | rewrite bool_decide_eq_false_2 by lra
               | progress simpl ].
  reflexivity.
Qed.

(** ** Loops and array accesses *)

(** The rule of [for_each]: an invariant [Q k s] on the state before the
    [k]-th iteration, and a condition [E] on the exception of an iteration
    that raises. *)
Lemma for_each_rule {A S} (Q : nat -> S -> Prop) (E : string -> Prop)
    (xs : list A) (body : A -> S -> result S) (s0 : S) :
  Q 0%nat s0 ->
  (forall k x s, xs !! k = Some x -> Q k s ->
     match body x s with
     | Ret s' => Q (Datatypes.S k) s'
     | Raise e => E e
     end) ->
  match for_each xs body s0 with
  | Ret s' => Q (length xs) s'
  | Raise e => E e
  end.
Proof.
  revert Q s0. induction xs as [|x xs IH]; intros Q s0 H0 Hstep; simpl.
  - exact H0.
  - pose proof (Hstep 0%nat x s0 eq_refl H0) as Hx.
    destruct (body x s0) as [s1|e]; simpl; [|exact Hx].
    apply (IH (fun k => Q (Datatypes.S k))); [exact Hx|].
    intros k y s Hy. apply (Hstep (Datatypes.S k)). exact Hy.
Qed.

Lemma lookup_range n k x : range n !! k = Some x -> x = k /\ (k < n)%nat.
Proof.
  unfold range. intros H. apply lookup_seq in H. lia.
Qed.

Lemma length_range n : length (range n) = n.
Proof. apply length_seq. Qed.

Lemma norm_index_nat len i :
  (i < len)%nat -> np.norm_index len (Z.of_nat i) = Some i.
Proof.
  intros Hi. unfold np.norm_index.
  destruct (decide (Z.of_nat i < 0)%Z); [lia|].
  destruct (decide (0 <= Z.of_nat i < Z.of_nat len)%Z); [|lia].
  by rewrite Nat2Z.id.
Qed.

Lemma norm_index_last len : np.norm_index (len + 1) (-1) = Some len.
Proof.
  unfold np.norm_index.
  destruct (decide (-1 < 0)%Z); [|lia].
  destruct (decide (0 <= -1 + Z.of_nat (len + 1) < Z.of_nat (len + 1))%Z);
    [|lia].
  f_equal. lia.
Qed.

Lemma norm_index_lt len i i' : np.norm_index len i = Some i' -> (i' < len)%nat.
Proof.
  unfold np.norm_index. intros H.
  destruct (decide (i < 0)%Z);
    destruct (decide _) as [Hr|]; simplify_eq; lia.
Qed.

Lemma is_matrix_lookup r c M i row :
  is_matrix r c M -> M !! i = Some row -> length row = c /\ (i < r)%nat.
Proof.
  intros [Hr Hc] Hi. split.
  - by eapply (Forall_lookup_1 _ _ _ _ Hc).
  - rewrite <- Hr. by eapply lookup_lt_Some.
Qed.

Lemma entry_is_Some r c M a b :
  is_matrix r c M -> (a < r)%nat -> (b < c)%nat -> is_Some (entry M a b).
Proof.
  intros HM Ha Hb. unfold entry.
  destruct (lookup_lt_is_Some_2 M a) as [row Hrow]; [by rewrite (proj1 HM)|].
  rewrite Hrow. simpl.
  apply lookup_lt_is_Some_2.
  by rewrite (proj1 (is_matrix_lookup _ _ _ _ _ HM Hrow)).
Qed.

Lemma set2_spec r c M i j i' j' v :
  is_matrix r c M ->
  np.norm_index r i = Some i' -> np.norm_index c j = Some j' ->
  exists M', np.set2 M i j v = Ret M' /\ is_matrix r c M' /\
    forall a b, entry M' a b =
      if decide (a = i' /\ b = j') then Some v else entry M a b.
Proof.
  intros HM Hi Hj. pose proof (norm_index_lt _ _ _ Hi) as Hi'.
  pose proof (norm_index_lt _ _ _ Hj) as Hj'.
  destruct (lookup_lt_is_Some_2 M i') as [row Hrow]; [by rewrite (proj1 HM)|].
  destruct (is_matrix_lookup _ _ _ _ _ HM Hrow) as [Hlen _].
  unfold np.set2. rewrite (proj1 HM), Hi, Hrow, Hlen, Hj.
  eexists; split; [reflexivity|]. split.
  - destruct HM as [Hr Hc]. split; [by rewrite length_insert|].
    apply Forall_insert; [exact Hc|]. by rewrite length_insert.
  - intros a b. unfold entry.
    destruct (decide (a = i')) as [->|Ha].
    + rewrite list_lookup_insert_eq by (by rewrite (proj1 HM)). simpl.
      rewrite Hrow. simpl.
      destruct (decide (b = j')) as [->|Hb].
      * rewrite list_lookup_insert_eq by lia.
        destruct (decide _) as [|Hn]; [done|]. by destruct Hn.
      * rewrite list_lookup_insert_ne by done.
        destruct (decide _) as [[_ ?]|]; done.
    + rewrite list_lookup_insert_ne by done.
      destruct (decide _) as [[? _]|]; done.
Qed.

Lemma get2_spec r c M i j i' j' v :
  is_matrix r c M ->
  np.norm_index r i = Some i' -> np.norm_index c j = Some j' ->
  entry M i' j' = Some v -> np.get2 M i j = Ret v.
Proof.
  intros HM Hi Hj He. unfold entry in He.
  destruct (M !! i') as [row|] eqn:Hrow; [|done]. simpl in He.
  destruct (is_matrix_lookup _ _ _ _ _ HM Hrow) as [Hlen _].
  unfold np.get2. by rewrite (proj1 HM), Hi, Hrow, Hlen, Hj, He.
Qed.

Lemma zeros_is_matrix r c : is_matrix r c (np.zeros r c).
Proof.
  split; [apply length_replicate|].
  apply Forall_replicate. apply length_replicate.
Qed.

Lemma entry_zeros r c a b :
  (a < r)%nat -> (b < c)%nat -> entry (np.zeros r c) a b = Some (Fin 0).
Proof.
  intros Ha Hb. unfold entry, np.zeros.
  rewrite lookup_replicate_2 by done. simpl.
  by rewrite lookup_replicate_2.
Qed.

(** ** The kernel matrix builder *)

Section precompute_K_loop.
Variable X : list (list npfloat).
Let n := length X.

(** The pairs (a, b), b <= a, that the two loops have handled when the
    outer loop is at [i] and the inner one at [m]. *)
Definition visited (i m a b : nat) : Prop :=
  (b <= a)%nat /\ ((a < i)%nat \/ (a = i /\ (b < m)%nat)).

#[local] Instance visited_dec i m a b : Decision (visited i m a b).
Proof. unfold visited. apply _. Defined.

Definition K_inv (i m : nat) (K : matrix) : Prop :=
  is_matrix n n K /\
  (forall a b, visited i m a b ->
     length (row_of X a) = length (row_of X b)) /\
  (forall a b, (a < n)%nat -> (b < n)%nat ->
     entry K a b =
       Some (if decide (visited i m (a `max` b) (a `min` b))
             then kernel (row_of X (a `max` b)) (row_of X (a `min` b))
             else Fin 0)).

Definition K_exc (e : string) : Prop :=
  e = "ValueError"%string /\
  exists a b, (a < n)%nat /\ (b < n)%nat /\
    length (row_of X a) <> length (row_of X b).

Lemma index_row_of i : (i < n)%nat -> index X i = Ret (row_of X i).
Proof.
  intros Hi. unfold index, row_of.
  destruct (lookup_lt_is_Some_2 X i Hi) as [x ->]. done.
Qed.

Lemma K_inv_body i j K :
  (j <= i)%nat -> (i < n)%nat -> K_inv i j K ->
  match
    (Xi ← index X i;
     Xj ← index X j;
     d ← np.dot Xi Xj;
     K1 ← np.set2 K (Z.of_nat i) (Z.of_nat j) (np.add (Fin 1) d);
     v ← np.get2 K1 (Z.of_nat i) (Z.of_nat j);
     np.set2 K1 (Z.of_nat j) (Z.of_nat i) v)
  with
  | Ret K' => K_inv i (S j) K'
  | Raise e => K_exc e
  end.
Proof.
  intros Hji Hi (HM & Hlen & Hent).
  rewrite (index_row_of i) by done. simpl.
  rewrite (index_row_of j) by lia. simpl.
  unfold np.dot.
  destruct (decide (length (row_of X i) = length (row_of X j))) as [Heq|Hne];
    simpl.
  2:{ split; [done|]. exists i, j. repeat split; [done|lia|done]. }
  destruct (set2_spec n n K (Z.of_nat i) (Z.of_nat j) i j
              (np.add (Fin 1) (np.sum (zip_with np.mul (row_of X i) (row_of X j))))
              HM) as (K1 & -> & HM1 & Hent1);
    [by apply norm_index_nat|apply norm_index_nat; lia|].
  simpl.
  rewrite (get2_spec n n K1 (Z.of_nat i) (Z.of_nat j) i j
             (kernel (row_of X i) (row_of X j)) HM1);
    [|by apply norm_index_nat|apply norm_index_nat; lia|].
  2:{ rewrite Hent1. destruct (decide _) as [|Hn]; [done|]. by destruct Hn. }
  simpl.
  destruct (set2_spec n n K1 (Z.of_nat j) (Z.of_nat i) j i
              (kernel (row_of X i) (row_of X j)) HM1)
    as (K2 & -> & HM2 & Hent2);
    [apply norm_index_nat; lia|by apply norm_index_nat|].
  split; [done|]. split.
  - intros a b [Hba [Ha|[-> Hb]]].
    + apply Hlen. split; [done|]. by left.
    + destruct (decide (b = j)) as [->|Hbj]; [done|].
      apply Hlen. split; [done|]. right. split; [done|lia].
  - intros a b Ha Hb. rewrite Hent2, Hent1.
    destruct (decide (a = j /\ b = i)) as [[-> ->]|Hn1].
    { replace (j `max` i)%nat with i by lia.
      replace (j `min` i)%nat with j by lia.
      destruct (decide (visited i (S j) i j)) as [|Hn]; [done|].
      destruct Hn. split; [done|]. right. split; [done|lia]. }
    destruct (decide (a = i /\ b = j)) as [[-> ->]|Hn2].
    { replace (i `max` j)%nat with i by lia.
      replace (i `min` j)%nat with j by lia.
      destruct (decide (visited i (S j) i j)) as [|Hn]; [done|].
      destruct Hn. split; [done|]. right. split; [done|lia]. }
    rewrite Hent by done.
    destruct (decide (visited i j (a `max` b) (a `min` b))) as [Hv|Hv];
      destruct (decide (visited i (S j) (a `max` b) (a `min` b))) as [Hv'|Hv'];
      try done.
    + destruct Hv'. destruct Hv as [? [?|[? ?]]]; split; try done;
        [by left|right; split; [done|lia]].
    + destruct Hv' as [? [?|[? ?]]].
      * destruct Hv. split; [done|]. by left.
      * destruct (decide ((a `min` b)%nat = j)) as [Hm|Hm].
        -- exfalso.
           assert ((a = j /\ b = i) \/ (a = i /\ b = j)) as [?|?] by lia;
             tauto.
        -- destruct Hv. split; [done|]. right. split; [done|lia].
Qed.

Lemma precompute_K_outcome :
  match experiments.precompute_K X with
  | Ret K =>
      (forall a b, (a < n)%nat -> (b < n)%nat ->
         length (row_of X a) = length (row_of X b)) /\
      is_matrix n n K /\
      (forall a b, (a < n)%nat -> (b < n)%nat ->
         entry K a b =
           Some (kernel (row_of X (a `max` b)) (row_of X (a `min` b))))
  | Raise e => K_exc e
  end.
Proof.
  unfold experiments.precompute_K. fold n.
  pose proof (for_each_rule (fun i => K_inv i 0) K_exc (range n)
    (fun i K => for_each (range (i + 1)) (fun j K =>
       Xi ← index X i;
       Xj ← index X j;
       d ← np.dot Xi Xj;
       K1 ← np.set2 K (Z.of_nat i) (Z.of_nat j) (np.add (Fin 1) d);
       v ← np.get2 K1 (Z.of_nat i) (Z.of_nat j);
       np.set2 K1 (Z.of_nat j) (Z.of_nat i) v) K)
    (np.zeros n n)) as Hloop.
  rewrite length_range in Hloop.
  match type of Hloop with ?P -> ?Q -> ?C => assert (HC : C) end.
  { apply Hloop; clear Hloop.
    - split; [apply zeros_is_matrix|]. split.
      + intros a b [_ [?|[_ ?]]]; lia.
      + intros a b Ha Hb. rewrite entry_zeros by done.
        destruct (decide _) as [[_ [?|[_ ?]]]|]; [lia|lia|done].
    - intros k i K Hk HK. apply lookup_range in Hk as [-> Hk].
      pose proof (for_each_rule (fun j => K_inv k j) K_exc (range (k + 1))
        (fun j K =>
           Xi ← index X k;
           Xj ← index X j;
           d ← np.dot Xi Xj;
           K1 ← np.set2 K (Z.of_nat k) (Z.of_nat j) (np.add (Fin 1) d);
           v ← np.get2 K1 (Z.of_nat k) (Z.of_nat j);
           np.set2 K1 (Z.of_nat j) (Z.of_nat k) v) K HK) as Hin.
      rewrite length_range in Hin.
      match type of Hin with ?Q -> ?C => assert (HC : C) end.
      { apply Hin. intros j x K' Hj HK'. apply lookup_range in Hj as [-> Hj].
        apply K_inv_body; [lia|done|done]. }
      destruct (for_each (range (k + 1)) _ K) as [K'|e]; [|done].
      destruct HC as (HM & Hlen & Hent). split; [done|]. split.
      + intros a b [Hba [Ha|[_ Hb]]]; [|lia].
        apply Hlen. split; [done|]. destruct (decide (a = k)) as [->|];
          [right; split; [done|lia]|left; lia].
      + intros a b Ha Hb. rewrite Hent by done.
        destruct (decide (visited k (k + 1) _ _)) as [Hv|Hv];
          destruct (decide (visited (S k) 0 _ _)) as [Hv'|Hv']; try done.
        * destruct Hv'. destruct Hv as [? [?|[? ?]]]; split; try done;
            left; lia.
        * destruct Hv. destruct Hv' as [? [?|[? ?]]]; [|lia].
          split; [done|].
          destruct (decide ((a `max` b)%nat = k)); [right|left]; lia. }
  destruct (for_each (range n) _ (np.zeros n n)) as [K|e]; [|done].
  destruct HC as (HM & Hlen & Hent). split; [|split; [done|]].
  - intros a b Ha Hb. destruct (decide (b <= a)%nat).
    + apply Hlen. split; [done|]. by left.
    + symmetry. apply Hlen. split; [lia|]. by left.
  - intros a b Ha Hb. rewrite Hent by done.
    destruct (decide _) as [|Hv]; [done|]. destruct Hv. split; [lia|].
    left. lia.
Qed.

End precompute_K_loop.

(** ** Real vectors *)

Lemma length_reals a : length (reals a) = length a.
Proof. apply length_fmap. Qed.

Lemma sum_mul_reals a b :
  np.sum (zip_with np.mul (reals a) (reals b)) = Fin (inner a b).
Proof.
  revert b. induction a as [|x a IH]; intros [|y b]; try reflexivity.
  unfold reals, inner, np.sum in *. simpl. rewrite IH. reflexivity.
Qed.

Lemma kernel_reals a b : kernel (reals a) (reals b) = Fin (1 + inner a b).
Proof. unfold kernel. rewrite sum_mul_reals. reflexivity. Qed.

Lemma inner_comm a b : inner a b = inner b a.
Proof.
  revert b. induction a as [|x a IH]; intros [|y b]; try reflexivity.
  unfold inner in *. simpl. rewrite IH. lra.
Qed.

Lemma inner_self_nonneg a : 0 <= inner a a.
Proof.
  induction a as [|x a IH]; unfold inner in *; simpl; [lra|nra].
Qed.

Lemma row_of_reals X i x :
  X !! i = Some x -> row_of (reals <$> X) i = reals x.
Proof. intros H. unfold row_of. by rewrite list_lookup_fmap, H. Qed.

(** C1: for every list [X] of real feature vectors of one length,
    [precompute_K] returns a square matrix of size [len(X)] whose entries
    satisfy [K[i][j] == K[j][i] == 1 + <X[i], X[j]>]. *)
Theorem precompute_K_shifted_linear_kernel (X : list (list R)) (d : nat) :
  Forall (fun x => length x = d) X ->
  exists K,
    experiments.precompute_K (reals <$> X) = Ret K /\
    is_matrix (length X) (length X) K /\
    forall i j xi xj, X !! i = Some xi -> X !! j = Some xj ->
      entry K i j = Some (Fin (1 + inner xi xj)) /\
      entry K j i = Some (Fin (1 + inner xi xj)).
Proof.
  intros Hd. pose proof (precompute_K_outcome (reals <$> X)) as H.
  rewrite length_fmap in H.
  destruct (experiments.precompute_K (reals <$> X)) as [K|e].
  - destruct H as (_ & HM & Hent). exists K. split; [done|]. split; [done|].
    assert (Hone : forall i j xi xj, X !! i = Some xi -> X !! j = Some xj ->
              entry K i j = Some (Fin (1 + inner xi xj))).
    { intros i j xi xj Hi Hj.
      rewrite Hent by (by eapply lookup_lt_Some).
      destruct (Nat.max_spec i j) as [[? ->]|[? ->]];
        destruct (Nat.min_spec i j) as [[? ->]|[? ->]]; try lia;
        rewrite ?(row_of_reals _ _ _ Hi), ?(row_of_reals _ _ _ Hj),
          kernel_reals; try done; try (by rewrite inner_comm);
        assert (i = j) as -> by lia; by simplify_eq. }
    intros i j xi xj Hi Hj. split; [by apply Hone|].
    rewrite (inner_comm xi xj). by apply Hone.
  - exfalso. destruct H as (_ & a & b & Ha & Hb & Hne). apply Hne.
    rewrite length_fmap in Ha, Hb.
    destruct (lookup_lt_is_Some_2 X a Ha) as [xa Hxa].
    destruct (lookup_lt_is_Some_2 X b Hb) as [xb Hxb].
    rewrite (row_of_reals _ _ _ Hxa), (row_of_reals _ _ _ Hxb).
    rewrite !length_reals.
    rewrite (Forall_lookup_1 _ _ _ _ Hd Hxa), (Forall_lookup_1 _ _ _ _ Hd Hxb).
    done.
Qed.

Lemma precompute_K_shifted_linear_kernel_witness :
  exists K,
    experiments.precompute_K (reals <$> [[1; 2]; [3; 4]]) = Ret K /\
    is_matrix 2 2 K /\
    forall i j xi xj,
      [[1; 2]; [3; 4]] !! i = Some xi -> [[1; 2]; [3; 4]] !! j = Some xj ->
      entry K i j = Some (Fin (1 + inner xi xj)) /\
      entry K j i = Some (Fin (1 + inner xi xj)).
Proof.
  apply (precompute_K_shifted_linear_kernel [[1; 2]; [3; 4]] 2).
  repeat constructor.
Defined.

(** C8: every diagonal entry of the matrix that [precompute_K] returns
    for real feature vectors is [1 + <X[i], X[i]>], which is
    non-negative. *)
Theorem precompute_K_diagonal_nonneg (X : list (list R)) (K : matrix) :
  experiments.precompute_K (reals <$> X) = Ret K ->
  forall i xi, X !! i = Some xi ->
    exists r, entry K i i = Some (Fin r) /\ r = 1 + inner xi xi /\ 0 <= r.
Proof.
  intros HK i xi Hi. pose proof (precompute_K_outcome (reals <$> X)) as H.
  rewrite HK, length_fmap in H. destruct H as (_ & _ & Hent).
  exists (1 + inner xi xi). split; [|split; [done|]].
  - rewrite Hent by (by eapply lookup_lt_Some).
    rewrite Nat.max_id, Nat.min_id, (row_of_reals _ _ _ Hi).
    by rewrite kernel_reals.
  - pose proof (inner_self_nonneg xi). lra.
Qed.

Lemma precompute_K_diagonal_nonneg_witness :
  exists K,
    experiments.precompute_K (reals <$> [[1; -2]; [3; 4]]) = Ret K /\
    exists r, entry K 1 1 = Some (Fin r) /\ r = 1 + inner [3; 4] [3; 4] /\
              0 <= r.
Proof.
  eexists. split; [vm_compute; reflexivity|].
  eapply (precompute_K_diagonal_nonneg [[1; -2]; [3; 4]]);
    [vm_compute|]; reflexivity.
Defined.

(** C7 (as the code has it): when two feature vectors of [X] differ in
    length, [precompute_K] raises numpy's [ValueError] (from [np.dot], on
    the first such pair that the loops reach) and returns no matrix. *)
Theorem precompute_K_inconsistent_lengths (X : list (list npfloat))
    (i j : nat) (xi xj : list npfloat) :
  X !! i = Some xi -> X !! j = Some xj -> length xi <> length xj ->
  experiments.precompute_K X = Raise "ValueError".
Proof.
  intros Hi Hj Hne. pose proof (precompute_K_outcome X) as H.
  destruct (experiments.precompute_K X) as [K|e].
  - exfalso. destruct H as (Hlen & _). apply Hne.
    specialize (Hlen i j (lookup_lt_Some _ _ _ Hi) (lookup_lt_Some _ _ _ Hj)).
    unfold row_of in Hlen. by rewrite Hi, Hj in Hlen.
  - destruct H as [-> _]. done.
Qed.

Lemma precompute_K_inconsistent_lengths_witness :
  experiments.precompute_K (reals <$> [[1; 2]; [1; 2; 3]]) = Raise "ValueError".
Proof.
  apply (precompute_K_inconsistent_lengths _ 0 1 (reals [1; 2]) (reals [1; 2; 3]));
    [reflexivity|reflexivity|simpl; lia].
Defined.

(** C7 as stated fails: on vectors of lengths 2 and 3 the exception is
    [ValueError], not a [DimensionError]. *)
Lemma precompute_K_raises_no_DimensionError :
  experiments.precompute_K (reals <$> [[1; 2]; [1; 2; 3]]) = Raise "ValueError" /\
  ~ raises (experiments.precompute_K (reals <$> [[1; 2]; [1; 2; 3]]))
      "DimensionError".
Proof.
  assert (H : experiments.precompute_K (reals <$> [[1; 2]; [1; 2; 3]])
              = Raise "ValueError") by (vm_compute; reflexivity).
  split; [exact H|]. unfold raises. rewrite H. discriminate.
Qed.

(** ** Augmenting the kernel matrix *)

Lemma mapM_Ret_id {A} (f : A -> result A) (l : list A) :
  Forall (fun x => f x = Ret x) l -> mapM f l = Ret l.
Proof.
  induction 1 as [|x l Hx _ IH]; [done|]. simpl. rewrite Hx. simpl.
  rewrite IH. done.
Qed.

Lemma broadcast_to_same r c V : is_matrix r c V -> broadcast_to r c V = Ret V.
Proof.
  intros [Hr Hc]. unfold broadcast_to. rewrite mapM_Ret_id.
  - simpl. unfold broadcast_axis. by rewrite decide_True.
  - eapply Forall_impl; [exact Hc|]. intros row Hrow. unfold broadcast_axis.
    by rewrite decide_True.
Qed.

Lemma assign_block_spec n r c M V :
  is_matrix (n + r) (n + c) M -> is_matrix n n V ->
  exists M', assign_block M n n V = Ret M' /\
    is_matrix (n + r) (n + c) M' /\
    forall a b, entry M' a b =
      if decide ((a < n)%nat /\ (b < n)%nat) then entry V a b
      else entry M a b.
Proof.
  intros HM HV. unfold assign_block. rewrite (broadcast_to_same _ _ _ HV).
  simpl. eexists. split; [reflexivity|].
  destruct HM as [HMr HMc], HV as [HVr HVc].
  assert (Hrow : forall a, (a < n)%nat ->
            exists v m, V !! a = Some v /\ M !! a = Some m /\
              length v = n /\ length m = (n + c)%nat /\
              (zip_with (fun new old => new ++ drop n old) V (take n M)
                 ++ drop n M) !! a = Some (v ++ drop n m)).
  { intros a Ha.
    destruct (lookup_lt_is_Some_2 V a) as [v Hv]; [lia|].
    destruct (lookup_lt_is_Some_2 M a) as [m Hm]; [lia|].
    exists v, m. split; [done|]. split; [done|].
    split; [by eapply (Forall_lookup_1 _ _ _ _ HVc)|].
    split; [by eapply (Forall_lookup_1 _ _ _ _ HMc)|].
    rewrite lookup_app_l
      by (rewrite length_zip_with, length_take; lia).
    rewrite lookup_zip_with, Hv. simpl.
    rewrite lookup_take_lt by done. rewrite Hm. done. }
  assert (Hrest : forall a, (n <= a)%nat ->
            (zip_with (fun new old => new ++ drop n old) V (take n M)
               ++ drop n M) !! a = M !! a).
  { intros a Ha.
    rewrite lookup_app_r
      by (rewrite length_zip_with, length_take; lia).
    rewrite length_zip_with, length_take, lookup_drop.
    f_equal. lia. }
  split; [split|].
  - rewrite length_app, length_zip_with, length_take, length_drop. lia.
  - apply Forall_lookup_2. intros a row Ha.
    destruct (decide (a < n)%nat) as [Hlt|Hge].
    + destruct (Hrow a Hlt) as (v & m & _ & _ & Hv & Hm & Heq).
      rewrite Heq in Ha. simplify_eq.
      rewrite length_app, length_drop. lia.
    + rewrite Hrest in Ha by lia. by eapply (Forall_lookup_1 _ _ _ _ HMc).
  - intros a b. unfold entry.
    destruct (decide (a < n)%nat) as [Hlt|Hge].
    + destruct (Hrow a Hlt) as (v & m & Hva & Hma & Hv & Hm & ->).
      rewrite Hva, Hma. simpl.
      destruct (decide (b < n)%nat) as [Hb|Hb].
      * rewrite decide_True by done. apply lookup_app_l. lia.
      * rewrite decide_False by tauto.
        rewrite lookup_app_r by lia. rewrite lookup_drop. f_equal. lia.
    + rewrite decide_False by tauto. by rewrite Hrest by lia.
Qed.

Section augment_loop.
Variables (K : matrix) (X : list (list npfloat)) (x_test : list npfloat).
Let n := length X.
Hypothesis HK : is_matrix n n K.
Hypothesis Hlen : Forall (fun x => length x = length x_test) X.

(** The state of [K_aug] when the loop is at [i]: the block of [K], the
    border filled up to [i], zeros elsewhere. *)
Definition aug_inv (i : nat) (K_aug : matrix) : Prop :=
  is_matrix (n + 1) (n + 1) K_aug /\
  forall a b, (a <= n)%nat -> (b <= n)%nat ->
    entry K_aug a b =
      if decide ((a < n)%nat /\ (b < n)%nat) then entry K a b
      else if decide ((a `min` b < i)%nat /\ (a `max` b)%nat = n)
           then Some (kernel (row_of X (a `min` b)) x_test)
           else Some (Fin 0).

Lemma aug_inv_body i K_aug :
  (i < n)%nat -> aug_inv i K_aug ->
  exists K', (Xi ← index X i;
              d ← np.dot Xi x_test;
              K1 ← np.set2 K_aug (-1) (Z.of_nat i) (np.add (Fin 1) d);
              v ← np.get2 K1 (-1) (Z.of_nat i);
              np.set2 K1 (Z.of_nat i) (-1) v) = Ret K' /\
             aug_inv (S i) K'.
Proof.
  intros Hi [HM Hent].
  rewrite (index_row_of X i) by done. simpl.
  assert (Hl : length (row_of X i) = length x_test).
  { destruct (lookup_lt_is_Some_2 X i Hi) as [x Hx].
    unfold row_of. rewrite Hx. simpl.
    by apply (Forall_lookup_1 _ _ _ _ Hlen Hx). }
  unfold np.dot. rewrite decide_True by done. simpl.
  destruct (set2_spec (n + 1) (n + 1) K_aug (-1) (Z.of_nat i) n i
              (kernel (row_of X i) x_test) HM)
    as (K1 & HK1 & HM1 & Hent1);
    [apply norm_index_last|apply norm_index_nat; lia|].
  unfold kernel in HK1. rewrite HK1. simpl.
  rewrite (get2_spec (n + 1) (n + 1) K1 (-1) (Z.of_nat i) n i
             (kernel (row_of X i) x_test) HM1);
    [|apply norm_index_last|apply norm_index_nat; lia|].
  2:{ rewrite Hent1. by rewrite decide_True. }
  simpl.
  destruct (set2_spec (n + 1) (n + 1) K1 (Z.of_nat i) (-1) i n
              (kernel (row_of X i) x_test) HM1)
    as (K2 & -> & HM2 & Hent2);
    [apply norm_index_nat; lia|apply norm_index_last|].
  eexists. split; [reflexivity|]. split; [done|].
  intros a b Ha Hb. rewrite Hent2, Hent1.
  destruct (decide (a = i /\ b = n)) as [[-> ->]|Hn1].
  { rewrite decide_False by lia.
    replace (i `min` n)%nat with i by lia.
    rewrite decide_True by lia. done. }
  destruct (decide (a = n /\ b = i)) as [[-> ->]|Hn2].
  { rewrite decide_False by lia.
    replace (n `min` i)%nat with i by lia.
    rewrite decide_True by lia. done. }
  rewrite Hent by done.
  destruct (decide ((a < n)%nat /\ (b < n)%nat)); [done|].
  destruct (decide ((a `min` b < i)%nat /\ (a `max` b)%nat = n)) as [Hv|Hv].
  - rewrite decide_True by lia. done.
  - rewrite decide_False; [done|]. intros [Hv1 Hv2].
    assert ((a = i /\ b = n) \/ (a = n /\ b = i)) as [?|?] by lia; tauto.
Qed.

Lemma augment_K_precomputed_spec :
  exists K_aug,
    experiments.augment_K_precomputed K X x_test = Ret K_aug /\
    is_matrix (n + 1) (n + 1) K_aug /\
    (forall a b, (a < n)%nat -> (b < n)%nat -> entry K_aug a b = entry K a b) /\
    (forall i, (i < n)%nat ->
       entry K_aug n i = Some (kernel (row_of X i) x_test) /\
       entry K_aug i n = Some (kernel (row_of X i) x_test)) /\
    entry K_aug n n = Some (kernel x_test x_test).
Proof.
  unfold experiments.augment_K_precomputed. fold n.
  destruct (assign_block_spec n 1 1 (np.zeros (n + 1) (n + 1)) K
              (zeros_is_matrix _ _) HK) as (K0 & -> & HM0 & Hent0).
  simpl.
  pose proof (for_each_rule aug_inv (fun _ => False) (range n)
    (fun i K_aug =>
       Xi ← index X i;
       d ← np.dot Xi x_test;
       K1 ← np.set2 K_aug (-1) (Z.of_nat i) (np.add (Fin 1) d);
       v ← np.get2 K1 (-1) (Z.of_nat i);
       np.set2 K1 (Z.of_nat i) (-1) v) K0) as Hloop.
  rewrite length_range in Hloop.
  match type of Hloop with ?P -> ?Q -> ?C => assert (HC : C) end.
  { apply Hloop; clear Hloop.
    - split; [done|]. intros a b Ha Hb. rewrite Hent0.
      destruct (decide ((a < n)%nat /\ (b < n)%nat)); [done|].
      rewrite decide_False by lia. apply entry_zeros; lia.
    - intros k i K' Hk HK'. apply lookup_range in Hk as [-> Hk].
      destruct (aug_inv_body k K' Hk HK') as (K'' & -> & HK''). done. }
  destruct (for_each (range n) _ K0) as [K1|e]; [|done]. simpl.
  destruct HC as [HM1 Hent1].
  unfold np.dot. rewrite decide_True by done. simpl.
  destruct (set2_spec (n + 1) (n + 1) K1 (-1) (-1) n n
              (kernel x_test x_test) HM1)
    as (K2 & HK2 & HM2 & Hent2); [apply norm_index_last..|].
  unfold kernel in HK2. rewrite HK2. eexists. split; [reflexivity|].
  split; [done|]. split; [|split].
  - intros a b Ha Hb. rewrite Hent2, decide_False by lia.
    rewrite Hent1 by lia. by rewrite decide_True.
  - intros i Hi. rewrite !Hent2, !Hent1 by lia.
    replace (n `min` i)%nat with i by lia.
    replace (i `min` n)%nat with i by lia.
    split; repeat case_decide; (done || (exfalso; lia)).
  - rewrite Hent2. by rewrite decide_True.
Qed.

End augment_loop.

(** C2: for an n x n matrix [K], n real vectors [X_train] and a real
    vector [x_test] of one dimension, [augment_K_precomputed] returns an
    (n+1) x (n+1) matrix whose top-left block is [K], whose last row and
    last column hold [1 + <X_train[i], x_test>], and whose last diagonal
    entry is [1 + <x_test, x_test>]. *)
Theorem augment_K_precomputed_block_border_corner
    (K : matrix) (X_train : list (list R)) (x_test : list R) :
  is_matrix (length X_train) (length X_train) K ->
  Forall (fun x => length x = length x_test) X_train ->
  exists K_aug,
    experiments.augment_K_precomputed K (reals <$> X_train) (reals x_test)
      = Ret K_aug /\
    is_matrix (length X_train + 1) (length X_train + 1) K_aug /\
    (forall a b, (a < length X_train)%nat -> (b < length X_train)%nat ->
       entry K_aug a b = entry K a b) /\
    (forall i xi, X_train !! i = Some xi ->
       entry K_aug (length X_train) i = Some (Fin (1 + inner xi x_test)) /\
       entry K_aug i (length X_train) = Some (Fin (1 + inner xi x_test))) /\
    entry K_aug (length X_train) (length X_train)
      = Some (Fin (1 + inner x_test x_test)).
Proof.
  intros HK Hlen.
  destruct (augment_K_precomputed_spec K (reals <$> X_train) (reals x_test))
    as (K_aug & HR & HM & Hblock & Hborder & Hcorner).
  - by rewrite length_fmap.
  - apply Forall_fmap. eapply Forall_impl; [exact Hlen|].
    intros x Hx. simpl. by rewrite !length_reals.
  - rewrite length_fmap in *. exists K_aug. split; [done|]. split; [done|].
    split; [done|]. split.
    + intros i xi Hi.
      destruct (Hborder i (lookup_lt_Some _ _ _ Hi)) as [H1 H2].
      rewrite (row_of_reals _ _ _ Hi), kernel_reals in H1, H2. done.
    + by rewrite kernel_reals in Hcorner.
Qed.

Lemma augment_K_precomputed_block_border_corner_witness :
  exists K_aug,
    experiments.augment_K_precomputed [[Fin 2; Fin 3]; [Fin 3; Fin 5]]
      (reals <$> [[1; 0]; [1; 1]]) (reals [2; 1]) = Ret K_aug /\
    is_matrix 3 3 K_aug /\
    (forall a b, (a < 2)%nat -> (b < 2)%nat ->
       entry K_aug a b = entry [[Fin 2; Fin 3]; [Fin 3; Fin 5]] a b) /\
    (forall i xi, [[1; 0]; [1; 1]] !! i = Some xi ->
       entry K_aug 2 i = Some (Fin (1 + inner xi [2; 1])) /\
       entry K_aug i 2 = Some (Fin (1 + inner xi [2; 1]))) /\
    entry K_aug 2 2 = Some (Fin (1 + inner [2; 1] [2; 1])).
Proof.
  apply (augment_K_precomputed_block_border_corner
           [[Fin 2; Fin 3]; [Fin 3; Fin 5]] [[1; 0]; [1; 1]] [2; 1]).
  - split; [reflexivity|]. repeat constructor.
  - repeat constructor.
Defined.

(** ** Sums and means do not depend on the order of the entries *)

Lemma add_swap x y z : np.add x (np.add y z) = np.add y (np.add x z).
Proof.
  destruct x, y, z; unfold np.add; try reflexivity; f_equal; lra.
Qed.

Lemma sum_cons x l : np.sum (x :: l) = np.add x (np.sum l).
Proof. reflexivity. Qed.

Lemma sum_perm l l' : l ≡ₚ l' -> np.sum l = np.sum l'.
Proof.
  induction 1 as [|x l l' _ IH|x y l|l l' l'' _ IH1 _ IH2].
  - done.
  - by rewrite !sum_cons, IH.
  - rewrite !sum_cons. apply add_swap.
  - by rewrite IH1.
Qed.

Lemma mean_perm l l' : l ≡ₚ l' -> np.mean l = np.mean l'.
Proof.
  intros Hp. unfold np.mean.
  by rewrite (sum_perm _ _ Hp), (Permutation_length Hp).
Qed.

(** ** Indexing by a permutation of the indices *)

Lemma take_in_range {A} (d : A) (a : list A) (order : list nat) :
  Forall (fun i => (i < length a)%nat) order ->
  np.take a order = Ret ((fun i => nth i a d) <$> order).
Proof.
  unfold np.take. induction 1 as [|i order Hi _ IH]; [done|].
  simpl. destruct (lookup_lt_is_Some_2 a i Hi) as [x Hx]. rewrite Hx. simpl.
  rewrite IH. simpl. by rewrite (nth_lookup_Some _ _ _ _ Hx).
Qed.

Lemma perm_seq_in_range (p : list nat) n m :
  p ≡ₚ seq 0 n -> (n <= m)%nat -> Forall (fun i => (i < m)%nat) p.
Proof.
  intros Hp Hnm. rewrite Hp. apply Forall_forall. intros i Hi.
  apply elem_of_seq in Hi. lia.
Qed.

Lemma fmap_nth_seq {A} (d : A) (a : list A) :
  (fun i => nth i a d) <$> seq 0 (length a) = a.
Proof.
  apply list_eq. intros i. rewrite list_lookup_fmap.
  destruct (decide (i < length a)%nat) as [Hi|Hi].
  - rewrite lookup_seq_lt by done. simpl.
    destruct (lookup_lt_is_Some_2 a i Hi) as [x Hx].
    by rewrite Hx, (nth_lookup_Some _ _ _ _ Hx).
  - rewrite lookup_seq_ge by lia. simpl. symmetry.
    apply lookup_ge_None. lia.
Qed.

(** Two arrays indexed by one permutation of the indices of the first
    hold the same pairs as the arrays themselves. *)
Lemma zip_indexed_perm {A B} (da : A) (db : B) (a : list A) (b : list B)
    (p : list nat) :
  p ≡ₚ seq 0 (length a) -> (length a <= length b)%nat ->
  zip ((fun i => nth i a da) <$> p) ((fun i => nth i b db) <$> p) ≡ₚ zip a b.
Proof.
  intros Hp Hlen.
  assert (Hz : zip ((fun i => nth i a da) <$> p) ((fun i => nth i b db) <$> p)
               = (fun i => (nth i a da, nth i b db)) <$> p).
  { clear. induction p as [|i p IH]; [done|]. simpl. f_equal. exact IH. }
  enough (Heq : (fun i => (nth i a da, nth i b db)) <$> seq 0 (length a)
                = zip a b) by (by rewrite Hz, Hp, Heq).
  apply list_eq. intros i.
  rewrite list_lookup_fmap, lookup_zip_with.
  destruct (decide (i < length a)%nat) as [Hi|Hi].
  - rewrite lookup_seq_lt by done. simpl.
    destruct (lookup_lt_is_Some_2 a i Hi) as [x Hx].
    destruct (lookup_lt_is_Some_2 b i) as [y Hy]; [lia|].
    rewrite Hx, Hy. simpl.
    by rewrite (nth_lookup_Some _ _ _ _ Hx), (nth_lookup_Some _ _ _ _ Hy).
  - rewrite lookup_seq_ge by lia. simpl.
    rewrite (proj2 (lookup_ge_None a i)) by lia. done.
Qed.

Section sorted_view.
Context `{Argsort}.

(** What the evaluators read: both arrays gathered by [argsort y_]. *)
Lemma sorted_view (y_ pred : list npfloat) :
  (length y_ <= length pred)%nat ->
  exists ys ps,
    np.take y_ (argsort y_) = Ret ys /\
    np.take pred (argsort y_) = Ret ps /\
    length ys = length y_ /\ length ps = length y_ /\
    zip ys ps ≡ₚ zip y_ pred.
Proof.
  intros Hlen. pose proof (argsort_perm y_) as Hp.
  exists ((fun i => nth i y_ NaN) <$> argsort y_),
         ((fun i => nth i pred NaN) <$> argsort y_).
  split; [apply take_in_range; by eapply perm_seq_in_range|].
  split; [apply take_in_range; by eapply perm_seq_in_range|].
  rewrite !length_fmap, (Permutation_length Hp), length_seq.
  split; [done|]. split; [done|]. by apply zip_indexed_perm.
Qed.

End sorted_view.

(** ** The evaluators without the sort *)

Lemma rmse_of_pairs y p : rmse_of y p = rmse_pairs (zip y p).
Proof.
  unfold rmse_of, rmse_pairs. do 2 f_equal.
  revert p. induction y as [|a y IH]; intros [|b p]; try done.
  simpl. f_equal. apply IH.
Qed.

Lemma mape_of_pairs y p : mape_of y p = mape_pairs (zip y p).
Proof.
  unfold mape_of, mape_pairs. f_equal.
  revert p. induction y as [|a y IH]; intros [|b p]; try done.
  simpl. f_equal. apply IH.
Qed.

Lemma r2_of_pairs y p :
  (length y <= length p)%nat -> r2_of y p = r2_pairs (zip y p).
Proof.
  intros Hlen. unfold r2_of, r2_pairs. rewrite fst_zip by done.
  do 2 f_equal. unfold experiments.r2_num. f_equal.
  clear Hlen. revert p. induction y as [|a y IH]; intros [|b p]; try done.
  simpl. f_equal. apply IH.
Qed.

Lemma r2_denum_perm ys ys' :
  ys ≡ₚ ys' -> experiments.r2_denum ys = experiments.r2_denum ys'.
Proof.
  intros Hp. unfold experiments.r2_denum.
  rewrite (mean_perm _ _ Hp). apply sum_perm. by rewrite Hp.
Qed.

Lemma rmse_pairs_perm zs zs' : zs ≡ₚ zs' -> rmse_pairs zs = rmse_pairs zs'.
Proof.
  intros Hp. unfold rmse_pairs. f_equal. apply mean_perm. by rewrite Hp.
Qed.

Lemma mape_pairs_perm zs zs' : zs ≡ₚ zs' -> mape_pairs zs = mape_pairs zs'.
Proof. intros Hp. unfold mape_pairs. apply mean_perm. by rewrite Hp. Qed.

Lemma r2_pairs_perm zs zs' : zs ≡ₚ zs' -> r2_pairs zs = r2_pairs zs'.
Proof.
  intros Hp. unfold r2_pairs. f_equal. f_equal.
  - apply sum_perm. by rewrite Hp.
  - apply r2_denum_perm. by rewrite Hp.
Qed.

Section evaluators_unsorted.
Context `{Argsort}.

Lemma compute_rmse_unsorted y_ pred :
  (length y_ <= length pred)%nat ->
  experiments.compute_rmse y_ pred = Ret (rmse_of y_ pred).
Proof.
  intros Hlen.
  destruct (sorted_view y_ pred Hlen) as (ys & ps & Hy & Hp & _ & _ & Hz).
  unfold experiments.compute_rmse. rewrite Hy. simpl. rewrite Hp. simpl.
  f_equal. change (rmse_of ys ps = rmse_of y_ pred).
  rewrite !rmse_of_pairs. by apply rmse_pairs_perm.
Qed.

Lemma compute_MAPE_unsorted y_ pred :
  (length y_ <= length pred)%nat ->
  experiments.compute_MAPE y_ pred = Ret (mape_of y_ pred).
Proof.
  intros Hlen.
  destruct (sorted_view y_ pred Hlen) as (ys & ps & Hy & Hp & _ & _ & Hz).
  unfold experiments.compute_MAPE. rewrite Hy. simpl. rewrite Hp. simpl.
  f_equal. change (mape_of ys ps = mape_of y_ pred).
  rewrite !mape_of_pairs. by apply mape_pairs_perm.
Qed.

Lemma compute_r2_unsorted y_ pred :
  (length y_ <= length pred)%nat ->
  experiments.compute_r2 y_ pred = Ret (r2_of y_ pred).
Proof.
  intros Hlen.
  destruct (sorted_view y_ pred Hlen) as (ys & ps & Hy & Hp & Hly & Hlp & Hz).
  unfold experiments.compute_r2. rewrite Hp. simpl. rewrite Hy. simpl.
  f_equal. change (r2_of ys ps = r2_of y_ pred).
  rewrite !r2_of_pairs by lia. by apply r2_pairs_perm.
Qed.

End evaluators_unsorted.

Lemma reals_permute p a :
  reals (permute p a) = (fun i => nth i (reals a) (Fin 0)) <$> p.
Proof.
  unfold reals, permute. rewrite <- list_fmap_compose.
  apply list_fmap_ext. intros _ i _. simpl.
  change (Fin (nth i a 0) = nth i (map Fin a) (Fin 0)).
  by rewrite map_nth.
Qed.

Lemma length_permute p a : length (permute p a) = length p.
Proof. apply length_fmap. Qed.

Lemma zip_reals_permute p y pred :
  length y = length pred -> p ≡ₚ seq 0 (length y) ->
  zip (reals (permute p y)) (reals (permute p pred))
    ≡ₚ zip (reals y) (reals pred).
Proof.
  intros Hlen Hp. rewrite !reals_permute.
  apply zip_indexed_perm; rewrite !length_reals; [done|lia].
Qed.

(** In exact arithmetic a sum does not depend on the order of its
    terms, so on real vectors [y_true] and [y_pred] of one length each
    evaluator returns on ([y_true[p]], [y_pred[p]]), for every
    permutation [p] of the indices, what it returns on ([y_true],
    [y_pred]): the statistic of the arrays as given.  Rounding is what
    this leaves out; the float64 statements follow. *)
Lemma exact_metrics_invariant_under_permutation `{Argsort}
    (y_true y_pred : list R) (p : list nat) :
  length y_true = length y_pred ->
  p ≡ₚ seq 0 (length y_true) ->
  (experiments.compute_rmse (reals (permute p y_true)) (reals (permute p y_pred))
     = experiments.compute_rmse (reals y_true) (reals y_pred) /\
   experiments.compute_r2 (reals (permute p y_true)) (reals (permute p y_pred))
     = experiments.compute_r2 (reals y_true) (reals y_pred) /\
   experiments.compute_MAPE (reals (permute p y_true)) (reals (permute p y_pred))
     = experiments.compute_MAPE (reals y_true) (reals y_pred)) /\
  (experiments.compute_rmse (reals y_true) (reals y_pred)
     = Ret (rmse_of (reals y_true) (reals y_pred)) /\
   experiments.compute_r2 (reals y_true) (reals y_pred)
     = Ret (r2_of (reals y_true) (reals y_pred)) /\
   experiments.compute_MAPE (reals y_true) (reals y_pred)
     = Ret (mape_of (reals y_true) (reals y_pred))).
Proof.
  intros Hlen Hp.
  pose proof (zip_reals_permute p y_true y_pred Hlen Hp) as Hz.
  assert (Hl : (length (reals y_true) <= length (reals y_pred))%nat)
    by (rewrite !length_reals; lia).
  assert (Hl' : (length (reals (permute p y_true))
                 <= length (reals (permute p y_pred)))%nat)
    by (rewrite !length_reals, !length_permute; lia).
  rewrite !compute_rmse_unsorted, !compute_r2_unsorted,
    !compute_MAPE_unsorted by done.
  split; [|done].
  rewrite !rmse_of_pairs, !mape_of_pairs, !r2_of_pairs by done.
  by rewrite (rmse_pairs_perm _ _ Hz), (r2_pairs_perm _ _ Hz),
    (mape_pairs_perm _ _ Hz).
Qed.

(** ** The evaluators in any arithmetic: what the sort fixes *)

(** The evaluators of [experiments] are the evaluators over the exact
    arithmetic. *)
Lemma exact_compute_rmse `{Argsort} y_ pred :
  evaluators.compute_rmse exact_arith argsort y_ pred
  = experiments.compute_rmse y_ pred.
Proof. reflexivity. Qed.

Lemma exact_compute_MAPE `{Argsort} y_ pred :
  evaluators.compute_MAPE exact_arith argsort y_ pred
  = experiments.compute_MAPE y_ pred.
Proof. reflexivity. Qed.

Lemma exact_compute_r2 `{Argsort} y_ pred :
  evaluators.compute_r2 exact_arith argsort y_ pred
  = experiments.compute_r2 y_ pred.
Proof. reflexivity. Qed.

Lemma FOP_perm {Z} (R : Z -> Z -> Prop) (l l' : list Z) :
  (forall a b, R a b -> R b a) ->
  l ≡ₚ l' -> ForallOrdPairs R l -> ForallOrdPairs R l'.
Proof.
  intros Hsym. induction 1 as [|x l l' Hp IH|x y l|l l' l'' _ IH1 _ IH2];
    intros Hl.
  - done.
  - inversion Hl as [|? ? Hx Hl']; subst. constructor; [by rewrite <- Hp|auto].
  - inversion Hl as [|? ? Hy Hl']; subst.
    inversion Hl' as [|? ? Hx Hl'']; subst.
    inversion Hy as [|? ? Hyx Hy']; subst.
    constructor; [constructor; [by apply Hsym|done]|by constructor].
  - auto.
Qed.

Lemma FOP_fst {Z W} (R : Z -> Z -> Prop) (l : list (Z * W)) :
  ForallOrdPairs R l.*1 <-> ForallOrdPairs (fun z z' => R z.1 z'.1) l.
Proof.
  induction l as [|z l IH]; simpl.
  - split; constructor.
  - split; intros Hl; inversion Hl as [|? ? Hz Hl']; subst; constructor.
    + apply (proj1 (Forall_fmap fst (R z.1) l)). exact Hz.
    + by apply IH.
    + apply (proj2 (Forall_fmap fst (R z.1) l)). exact Hz.
    + by apply IH.
Qed.

(** Two arrangements of the same entries, both ascending, are one
    arrangement when no two entries tie. *)
Lemma ascending_unique {Z} (lt : Z -> Z -> Prop) (l l' : list Z) :
  l ≡ₚ l' -> no_ties lt l -> ascending lt l -> ascending lt l' -> l = l'.
Proof.
  revert l'. induction l as [|a l IH]; intros l' Hp Hties Hl Hl'.
  - by apply Permutation_nil_l in Hp.
  - destruct l' as [|b l']; [by apply Permutation_nil_r in Hp|].
    inversion Hties as [|? ? Hta Hties']; subst.
    inversion Hl as [|? ? Ha Hl1]; subst.
    inversion Hl' as [|? ? Hb Hl1']; subst.
    assert (Hab : a = b).
    { assert (Hin : a ∈ b :: l') by (rewrite <- Hp; left).
      apply elem_of_cons in Hin as [Heq|Hin]; [done|].
      assert (Hin' : b ∈ a :: l) by (rewrite Hp; left).
      apply elem_of_cons in Hin' as [Heq|Hin']; [done|].
      exfalso.
      pose proof (proj1 (Forall_forall _ _) Hta b Hin') as Ht.
      pose proof (proj1 (Forall_forall _ _) Ha b Hin') as Hnba.
      pose proof (proj1 (Forall_forall _ _) Hb a Hin) as Hnab.
      simpl in *. tauto. }
    subst b. f_equal. apply IH; [by eapply Permutation_cons_inv|done..].
Qed.

(** Two arrays gathered by one permutation of the indices of the first
    hold the pairs of the arrays themselves. *)
Lemma gather_pairs {A B} (a : list A) (b : list B) (order : list nat) :
  order ≡ₚ seq 0 (length a) -> (length a <= length b)%nat ->
  exists ys ps,
    np.take a order = Ret ys /\ np.take b order = Ret ps /\
    length ys = length a /\ length ps = length a /\
    zip ys ps ≡ₚ zip a b.
Proof.
  intros Hp Hlen. destruct a as [|da a'].
  - apply Permutation_nil_r in Hp. subst order. by exists [], [].
  - destruct b as [|db b']; [simpl in Hlen; lia|].
    set (a := da :: a') in *. set (b := db :: b') in *.
    exists ((fun i => nth i a da) <$> order), ((fun i => nth i b db) <$> order).
    split; [apply take_in_range; by eapply perm_seq_in_range|].
    split; [apply take_in_range; by eapply perm_seq_in_range|].
    rewrite !length_fmap, (Permutation_length Hp), length_seq.
    split; [done|]. split; [done|]. by apply zip_indexed_perm.
Qed.

Section sorted_pairs.
Context {F : Type} (lt : F -> F -> Prop) (argsort : list F -> list nat).

(** What the evaluators read from arrays without tied targets is fixed
    by the pairs (target, prediction) that the arrays hold. *)
Lemma sorted_pairs_unique (y pred y' pred' : list F) :
  length y = length pred -> length y' = length pred' ->
  zip y' pred' ≡ₚ zip y pred ->
  no_ties lt y -> sorts lt argsort y -> sorts lt argsort y' ->
  exists ys ps,
    np.take y (argsort y) = Ret ys /\ np.take pred (argsort y) = Ret ps /\
    np.take y' (argsort y') = Ret ys /\ np.take pred' (argsort y') = Ret ps.
Proof.
  intros Hlen Hlen' Hz Hties [Ho Hasc] [Ho' Hasc'].
  destruct (gather_pairs y pred (argsort y) Ho)
    as (ys & ps & Hys & Hps & Hly & Hlp & Hzs); [lia|].
  destruct (gather_pairs y' pred' (argsort y') Ho')
    as (ys' & ps' & Hys' & Hps' & Hly' & Hlp' & Hzs'); [lia|].
  set (key := fun z z' : F * F => lt z.1 z'.1).
  assert (Heq : zip ys ps = zip ys' ps').
  { apply (ascending_unique key).
    - by rewrite Hzs, Hzs', Hz.
    - apply (FOP_perm _ (zip y pred)); [unfold key; tauto|done|].
      apply (FOP_fst (fun a b => lt a b \/ lt b a)).
      by rewrite fst_zip by lia.
    - apply (FOP_fst (fun a b => ~ lt b a)).
      rewrite fst_zip by lia. by apply Hasc.
    - apply (FOP_fst (fun a b => ~ lt b a)).
      rewrite fst_zip by lia. by apply Hasc'. }
  exists ys, ps. split; [done|]. split; [done|].
  assert (ys = ys') as ->.
  { rewrite <- (fst_zip ys ps), <- (fst_zip ys' ps') by lia. by rewrite Heq. }
  assert (ps = ps') as ->.
  { rewrite <- (snd_zip ys' ps), <- (snd_zip ys' ps') by lia. by rewrite Heq. }
  done.
Qed.

End sorted_pairs.

(** Let [y_true] and [y_pred] have one length, let no two entries of
    [y_true] tie in the order of the sort, and let [argsort] sort
    [y_true] and [y_true[p]], for a permutation [p] of the indices.
    Then each evaluator returns on ([y_true[p]], [y_pred[p]]) the very
    value it returns on ([y_true], [y_pred]): the sort brings both
    calls to the same arrays.  This holds in any arithmetic and for any
    sorting algorithm. *)
Lemma metrics_fixed_by_sort {F : Type} (A : evaluators.Arith F)
    (argsort : list F -> list nat) (lt : F -> F -> Prop)
    (y_true y_pred yp pp : list F) (p : list nat) :
  length y_true = length y_pred ->
  p ≡ₚ seq 0 (length y_true) ->
  np.take y_true p = Ret yp ->
  np.take y_pred p = Ret pp ->
  no_ties lt y_true ->
  sorts lt argsort y_true ->
  sorts lt argsort yp ->
  exists rmse r2 mape,
    evaluators.compute_rmse A argsort yp pp = Ret rmse /\
    evaluators.compute_rmse A argsort y_true y_pred = Ret rmse /\
    evaluators.compute_r2 A argsort yp pp = Ret r2 /\
    evaluators.compute_r2 A argsort y_true y_pred = Ret r2 /\
    evaluators.compute_MAPE A argsort yp pp = Ret mape /\
    evaluators.compute_MAPE A argsort y_true y_pred = Ret mape.
Proof.
  intros Hlen Hp Hyp Hpp Hties Hs Hs'.
  destruct (gather_pairs y_true y_pred p Hp)
    as (yp' & pp' & Hyp' & Hpp' & Hly & Hlp & Hz); [lia|].
  rewrite Hyp in Hyp'. rewrite Hpp in Hpp'. simplify_eq.
  destruct (sorted_pairs_unique lt argsort y_true y_pred yp' pp')
    as (ys & ps & Hys & Hps & Hys' & Hps'); [done|lia|done..|].
  unfold evaluators.compute_rmse, evaluators.compute_r2,
    evaluators.compute_MAPE.
  rewrite Hys, Hps, Hys', Hps'. simpl. eauto 10.
Qed.

(** ** The order of the sort on float64 *)

Lemma is_nan_SF (x : float) :
  PrimFloat.is_nan x = match Prim2SF x with S754_nan => true | _ => false end.
Proof.
  unfold PrimFloat.is_nan. rewrite FloatAxioms.eqb_spec.
  unfold SFeqb, SFcompare.
  destruct (Prim2SF x) as [s|s| |s m e]; try done.
  - by destruct s.
  - rewrite Z.compare_refl.
    change (PosDef.Pos.compare_cont Eq m m) with (Pos.compare m m).
    rewrite Pos.compare_refl. by destruct s.
Qed.

(** The order of the sort is the order of the keys. *)
Lemma lt_sort_key (x y : float) :
  np64.lt x y = true <-> key_lt (sort_key (Prim2SF x)) (sort_key (Prim2SF y)).
Proof.
  unfold np64.lt. rewrite FloatAxioms.ltb_spec, !is_nan_SF.
  unfold SFltb, SFcompare, key_lt.
  destruct (Prim2SF x) as [sx|sx| |sx mx ex], (Prim2SF y) as [sy|sy| |sy my ey];
    try destruct sx; try destruct sy; simpl; try (split; [done|lia]);
    try (split; [lia|done]);
    change (PosDef.Pos.compare_cont Eq mx my) with (Pos.compare mx my);
    destruct (Z.compare_spec ex ey), (Pos.compare_spec mx my); simpl;
    split; first [done | lia].
Qed.

Lemma lt_asym (x y : float) : np64.lt x y = true -> np64.lt y x = true -> False.
Proof. rewrite !lt_sort_key. unfold key_lt. lia. Qed.

Lemma lt_neg_trans (x y z : float) :
  np64.lt x z = true -> np64.lt x y = true \/ np64.lt y z = true.
Proof. rewrite !lt_sort_key. unfold key_lt. lia. Qed.

Lemma insert_sorted_perm64 x l : np64.insert_sorted x l ≡ₚ x :: l.
Proof.
  induction l as [|y l IH]; simpl; [done|].
  destruct (np64.lt y.2 x.2); [|done].
  rewrite IH. apply Permutation_swap.
Qed.

Lemma insert_sorted_ascending x l :
  ascending_pairs l -> ascending_pairs (np64.insert_sorted x l).
Proof.
  unfold ascending_pairs, ascending.
  induction l as [|y l IH]; intros Hl; simpl.
  - repeat constructor.
  - inversion Hl as [|? ? Hy Hl']; subst.
    destruct (np64.lt y.2 x.2) eqn:Hyx; simpl.
    + constructor; [|by apply IH].
      rewrite (insert_sorted_perm64 x l). simpl. constructor; [|done].
      intros Hxy. by eapply lt_asym.
    + constructor; [|by constructor].
      constructor; [by rewrite Hyx|].
      eapply Forall_impl; [exact Hy|]. intros z Hzy Hzx. simpl in *.
      destruct (lt_neg_trans _ y.2 _ Hzx); [done|congruence].
Qed.

Lemma sorted_pairs_ascending (l : list (nat * float)) :
  ascending_pairs (foldr np64.insert_sorted [] l).
Proof.
  induction l as [|x l IH]; simpl; [constructor|].
  by apply insert_sorted_ascending.
Qed.

Lemma sorted_pairs_perm (l : list (nat * float)) :
  foldr np64.insert_sorted [] l ≡ₚ l.
Proof.
  induction l as [|x l IH]; simpl; [done|].
  by rewrite insert_sorted_perm64, IH.
Qed.

Lemma take_indexed (a : list float) (l : list (nat * float)) :
  Forall (fun z => a !! z.1 = Some z.2) l -> np.take a l.*1 = Ret l.*2.
Proof.
  unfold np.take. induction 1 as [|z l Hz _ IH]; [done|].
  rewrite !fmap_cons. simpl. rewrite Hz. simpl. rewrite IH. done.
Qed.

(** [np64.argsort] sorts every array, [nan] last. *)
Lemma argsort_sorts (a : list float) :
  sorts (fun x y => np64.lt x y = true) np64.argsort a.
Proof.
  unfold sorts, np64.argsort.
  set (l := zip (seq 0 (length a)) a).
  pose proof (sorted_pairs_perm l) as Hp. split.
  - rewrite Hp. unfold l. rewrite fst_zip; [done|]. by rewrite length_seq.
  - intros ys Hys. rewrite take_indexed in Hys.
    + injection Hys as <-. apply sorted_pairs_ascending.
    + rewrite Hp. unfold l. apply Forall_forall. intros [i v] Hin.
      apply elem_of_lookup_zip_with in Hin as (k & i' & v' & Heq & Hi & Hv).
      simplify_eq. apply lookup_seq in Hi as [-> _]. done.
Qed.

(** C3 (as the code has it): for float64 arrays [y_true] and [y_pred]
    of one length, with no two entries of [y_true] tied in the order of
    the sort, and every permutation [p] of the indices, [compute_rmse],
    [compute_r2] and [compute_MAPE] return on ([y_true[p]],
    [y_pred[p]]) the very float they return on ([y_true], [y_pred]),
    whatever the order [reduce] in which numpy adds up a sum. *)
Theorem metrics_invariant_without_ties (reduce : list float -> float)
    (y_true y_pred : list float) (p : list nat) :
  length y_true = length y_pred ->
  p ≡ₚ seq 0 (length y_true) ->
  no_ties (fun a b => np64.lt a b = true) y_true ->
  exists yp pp rmse r2 mape,
    np.take y_true p = Ret yp /\
    np.take y_pred p = Ret pp /\
    evaluators.compute_rmse (np64.arithmetic reduce) np64.argsort yp pp
      = Ret rmse /\
    evaluators.compute_rmse (np64.arithmetic reduce) np64.argsort
      y_true y_pred = Ret rmse /\
    evaluators.compute_r2 (np64.arithmetic reduce) np64.argsort yp pp
      = Ret r2 /\
    evaluators.compute_r2 (np64.arithmetic reduce) np64.argsort
      y_true y_pred = Ret r2 /\
    evaluators.compute_MAPE (np64.arithmetic reduce) np64.argsort yp pp
      = Ret mape /\
    evaluators.compute_MAPE (np64.arithmetic reduce) np64.argsort
      y_true y_pred = Ret mape.
Proof.
  intros Hlen Hp Hties.
  destruct (gather_pairs y_true y_pred p Hp)
    as (yp & pp & Hyp & Hpp & _); [lia|].
  destruct (metrics_fixed_by_sort (np64.arithmetic reduce)
              np64.argsort (fun a b => np64.lt a b = true)
              y_true y_pred yp pp p Hlen Hp Hyp Hpp Hties
              (argsort_sorts y_true) (argsort_sorts yp))
    as (rmse & r2 & mape & H).
  exists yp, pp, rmse, r2, mape. tauto.
Qed.

Lemma metrics_invariant_without_ties_witness :
  exists yp pp rmse r2 mape,
    np.take [3; 1; 2]%float [2; 0; 1]%nat = Ret yp /\
    np.take [100000003; 2; 3]%float [2; 0; 1]%nat = Ret pp /\
    evaluators.compute_rmse binary64 np64.argsort yp pp = Ret rmse /\
    evaluators.compute_rmse binary64 np64.argsort
      [3; 1; 2]%float [100000003; 2; 3]%float = Ret rmse /\
    evaluators.compute_r2 binary64 np64.argsort yp pp = Ret r2 /\
    evaluators.compute_r2 binary64 np64.argsort
      [3; 1; 2]%float [100000003; 2; 3]%float = Ret r2 /\
    evaluators.compute_MAPE binary64 np64.argsort yp pp = Ret mape /\
    evaluators.compute_MAPE binary64 np64.argsort
      [3; 1; 2]%float [100000003; 2; 3]%float = Ret mape.
Proof.
  apply (metrics_invariant_without_ties np64.add_reduce
           [3; 1; 2]%float [100000003; 2; 3]%float [2; 0; 1]%nat).
  - reflexivity.
  - simpl. etrans; [apply Permutation_swap|].
    apply Permutation_skip, Permutation_swap.
  - repeat constructor;
      first [left; vm_compute; reflexivity | right; vm_compute; reflexivity].
Defined.

(** Two calls that return different floats. *)
Ltac float_results_differ :=
  let H := fresh in
  intros H;
  match type of H with
  | ?x = _ =>
      apply (f_equal (fun r => match x, r with
                               | Ret v, Ret w => PrimFloat.eqb v w
                               | _, _ => false
                               end)) in H
  end;
  vm_compute in H; discriminate.

(** C3 as stated fails in float64.  With the targets [-2, -1, 1, 1] and
    the predictions [-2, 1e17, 1e17, 2], exchanging the last two
    entries of both arrays (the two targets tie, so a stable sort keeps
    the exchange) turns [compute_MAPE] from 0.25 into 0: the ratios are
    added in another order, and 1 is lost next to 1e17.  And the sort
    does change a value: on the targets [3, 1, 2] and the predictions
    [100000003, 2, 3], [compute_rmse] returns 57735026.918962583, while
    the same formula on the arrays as given (no sort) gives
    57735026.918962575. *)
Lemma metrics_change_under_tie_swap :
  np.take [-2; -1; 1; 1]%float [0; 1; 3; 2]%nat = Ret [-2; -1; 1; 1]%float /\
  np.take [-2; 1e17; 1e17; 2]%float [0; 1; 3; 2]%nat
    = Ret [-2; 1e17; 2; 1e17]%float /\
  evaluators.compute_MAPE binary64 np64.argsort
      [-2; -1; 1; 1]%float [-2; 1e17; 1e17; 2]%float = Ret 0.25%float /\
  evaluators.compute_MAPE binary64 np64.argsort
      [-2; -1; 1; 1]%float [-2; 1e17; 2; 1e17]%float = Ret 0%float /\
  evaluators.compute_MAPE binary64 np64.argsort
      [-2; -1; 1; 1]%float [-2; 1e17; 2; 1e17]%float
    <> evaluators.compute_MAPE binary64 np64.argsort
         [-2; -1; 1; 1]%float [-2; 1e17; 1e17; 2]%float /\
  evaluators.compute_rmse binary64 np64.argsort
      [3; 1; 2]%float [100000003; 2; 3]%float
    = Ret 57735026.918962583%float /\
  evaluators.compute_rmse binary64 (fun a => seq 0 (length a))
      [3; 1; 2]%float [100000003; 2; 3]%float
    = Ret 57735026.918962575%float /\
  evaluators.compute_rmse binary64 np64.argsort
      [3; 1; 2]%float [100000003; 2; 3]%float
    <> evaluators.compute_rmse binary64 (fun a => seq 0 (length a))
         [3; 1; 2]%float [100000003; 2; 3]%float.
Proof.
  repeat split; try (vm_compute; reflexivity); float_results_differ.
Qed.

(** ** Real-valued forms of the statistics *)

Lemma sign_spec r :
  match np.sign r with
  | Lt => r < 0
  | Eq => r = 0
  | Gt => 0 < r
  end.
Proof. unfold np.sign. destruct (total_order_T r 0) as [[?|?]|?]; done. Qed.

Lemma sign_Gt r : 0 < r -> np.sign r = Gt.
Proof. intros Hr. pose proof (sign_spec r). destruct (np.sign r); [lra..|done]. Qed.

Lemma sign_Eq r : r = 0 -> np.sign r = Eq.
Proof. intros Hr. pose proof (sign_spec r). destruct (np.sign r); [done|lra..]. Qed.

Lemma sign_Lt r : r < 0 -> np.sign r = Lt.
Proof. intros Hr. pose proof (sign_spec r). destruct (np.sign r); [lra|done|lra]. Qed.

Lemma div_Fin a b : b <> 0 -> np.div (Fin a) (Fin b) = Fin (a / b).
Proof.
  intros Hb. unfold np.div. pose proof (sign_spec b).
  destruct (np.sign b); [done|reflexivity..].
Qed.

Lemma INR_length_pos {A} (l : list A) : l <> [] -> 0 < INR (length l).
Proof.
  intros Hl. destruct l as [|x l]; [done|].
  change 0 with (INR 0). apply lt_INR. simpl. lia.
Qed.

Lemma sum_reals l : np.sum (reals l) = Fin (Rsum l).
Proof.
  induction l as [|x l IH]; [done|].
  change (reals (x :: l)) with (Fin x :: reals l).
  rewrite sum_cons, IH. done.
Qed.

Lemma mean_reals l : l <> [] -> np.mean (reals l) = Fin (Rmean l).
Proof.
  intros Hl. unfold np.mean. rewrite sum_reals, length_reals.
  apply div_Fin. pose proof (INR_length_pos l Hl). lra.
Qed.

Lemma Rsum_nonneg l : Forall (fun x => 0 <= x) l -> 0 <= Rsum l.
Proof. induction 1 as [|x l Hx _ IH]; simpl; lra. Qed.

Lemma Rsum_pos l :
  Forall (fun x => 0 <= x) l -> Exists (fun x => 0 < x) l -> 0 < Rsum l.
Proof.
  induction 1 as [|x l Hx Hl IH]; intros Hex.
  - by apply Exists_nil in Hex.
  - apply Exists_cons in Hex as [Hpos|Hex]; simpl.
    + pose proof (Rsum_nonneg l Hl). lra.
    + specialize (IH Hex). lra.
Qed.

Lemma Rsum_zero l : Forall (fun x => x = 0) l -> Rsum l = 0.
Proof. induction 1 as [|x l Hx _ IH]; simpl; lra. Qed.

Lemma Rsum_constant c l :
  Forall (fun x => x = c) l -> Rsum l = INR (length l) * c.
Proof.
  induction 1 as [|x l Hx _ IH]; [simpl; lra|].
  change (length (x :: l)) with (S (length l)). rewrite S_INR.
  simpl. rewrite IH, Hx. lra.
Qed.

Lemma ss_res_nonneg y pred : 0 <= ss_res y pred.
Proof.
  unfold ss_res. apply Rsum_nonneg.
  revert pred. induction y as [|a y IH]; intros [|b p]; simpl;
    [apply Forall_nil_2..|].
  apply Forall_cons_2; [exact (Rle_0_sqr (b - a))|apply IH].
Qed.

(** ** MAPE and zero targets *)

Lemma ape_float_nonzero a b : a <> 0 -> ape_float a b = Fin (Rabs (a - b) / a).
Proof. intros Ha. unfold ape_float. simpl. by rewrite div_Fin. Qed.

Lemma ape_float_zero b : ape_float 0 b = PInf \/ ape_float 0 b = NaN.
Proof.
  unfold ape_float. simpl. unfold np.div. rewrite (sign_Eq 0) by done.
  pose proof (sign_spec (Rabs (0 + - b))) as Hs.
  pose proof (Rabs_pos (0 + - b)).
  destruct (np.sign (Rabs (0 + - b))); [by right|lra|by left].
Qed.

Lemma mape_array_reals y p :
  zip_with np.div (np.abs <$> zip_with np.sub (reals y) (reals p)) (reals y)
  = zip_with ape_float y p.
Proof.
  revert p. induction y as [|a y IH]; intros [|b p]; try done.
  change (reals (a :: y)) with (Fin a :: reals y).
  change (reals (b :: p)) with (Fin b :: reals p).
  simpl. f_equal. apply IH.
Qed.

Lemma mape_array_no_zero y p :
  0 ∉ y -> zip_with ape_float y p = reals (ape y p).
Proof.
  revert p. induction y as [|a y IH]; intros [|b p] Hy; try done.
  apply not_elem_of_cons in Hy as [Ha Hy].
  unfold ape. simpl. rewrite ape_float_nonzero by done.
  change (reals (?x :: ?l)) with (Fin x :: reals l). f_equal. by apply IH.
Qed.

Lemma ape_float_not_NInf a b : ape_float a b <> NInf.
Proof.
  destruct (Req_dec_T a 0) as [->|Ha].
  - destruct (ape_float_zero b) as [-> | ->]; done.
  - by rewrite ape_float_nonzero.
Qed.

Lemma add_not_NInf x y : x <> NInf -> y <> NInf -> np.add x y <> NInf.
Proof. destruct x, y; unfold np.add; done. Qed.

Lemma add_inf_or_nan x y :
  x <> NInf -> y <> NInf ->
  (x = PInf \/ x = NaN) \/ (y = PInf \/ y = NaN) ->
  np.add x y = PInf \/ np.add x y = NaN.
Proof.
  destruct x, y; unfold np.add; intros ? ? [[?|?]|[?|?]]; try done; auto.
Qed.

Lemma sum_not_NInf l : Forall (fun x => x <> NInf) l -> np.sum l <> NInf.
Proof.
  induction 1 as [|x l Hx _ IH]; [done|].
  rewrite sum_cons. by apply add_not_NInf.
Qed.

Lemma sum_inf_or_nan l :
  Forall (fun x => x <> NInf) l ->
  Exists (fun x => x = PInf \/ x = NaN) l ->
  np.sum l = PInf \/ np.sum l = NaN.
Proof.
  induction 1 as [|x l Hx Hl IH]; intros Hex.
  - by apply Exists_nil in Hex.
  - rewrite sum_cons. apply add_inf_or_nan; [done|by apply sum_not_NInf|].
    apply Exists_cons in Hex as [?|?]; [by left|right; by apply IH].
Qed.

Lemma mape_array_zero y p :
  length y = length p -> 0 ∈ y ->
  Forall (fun x => x <> NInf) (zip_with ape_float y p) /\
  Exists (fun x => x = PInf \/ x = NaN) (zip_with ape_float y p).
Proof.
  revert p. induction y as [|a y IH]; intros [|b p] Hlen Hy; try done.
  - by apply elem_of_nil in Hy.
  - simpl in *. split.
    + apply Forall_cons_2; [apply ape_float_not_NInf|].
      clear. revert p. induction y as [|a' y IH']; intros [|b' p];
        simpl; try apply Forall_nil_2.
      apply Forall_cons_2; [apply ape_float_not_NInf|apply IH'].
    + apply elem_of_cons in Hy as [<-|Hy].
      * apply Exists_cons_hd, ape_float_zero.
      * apply Exists_cons_tl. apply IH; [lia|done].
Qed.

(** C5 (as the code has it): [compute_MAPE] never raises on vectors of
    one length.  When some entry of [y_true] is 0 it returns [inf] or
    [nan]; when none is, it returns the mean of
    [|y_true[i] - y_pred[i]| / y_true[i]]. *)
Theorem compute_MAPE_zero_target_and_mean `{Argsort}
    (y_true y_pred : list R) :
  length y_true = length y_pred ->
  (0 ∈ y_true ->
     experiments.compute_MAPE (reals y_true) (reals y_pred) = Ret PInf \/
     experiments.compute_MAPE (reals y_true) (reals y_pred) = Ret NaN) /\
  (0 ∉ y_true ->
     experiments.compute_MAPE (reals y_true) (reals y_pred)
       = Ret (np.mean (reals (ape y_true y_pred))) /\
     (y_true <> [] ->
        np.mean (reals (ape y_true y_pred))
          = Fin (Rmean (ape y_true y_pred)))).
Proof.
  intros Hlen.
  rewrite compute_MAPE_unsorted by (rewrite !length_reals; lia).
  unfold mape_of. rewrite mape_array_reals. split.
  - intros Hy. destruct (mape_array_zero _ _ Hlen Hy) as [Hall Hex].
    pose proof (sum_inf_or_nan _ Hall Hex) as Hsum.
    unfold np.mean.
    assert (Hn : 0 < INR (length (zip_with ape_float y_true y_pred))).
    { apply INR_length_pos. destruct y_true, y_pred; try done.
      by apply elem_of_nil in Hy. }
    destruct Hsum as [-> | ->]; [left|right]; unfold np.div;
      [by rewrite (sign_Gt _ Hn)|done].
  - intros Hy. rewrite mape_array_no_zero by done. split; [done|].
    intros Hne. apply mean_reals. unfold ape.
    destruct y_true, y_pred; done.
Qed.

Lemma compute_MAPE_zero_target_and_mean_witness :
  (experiments.compute_MAPE (reals [0; 2]) (reals [1; 2]) = Ret PInf \/
   experiments.compute_MAPE (reals [0; 2]) (reals [1; 2]) = Ret NaN) /\
  experiments.compute_MAPE (reals [4; 2]) (reals [2; 3])
    = Ret (np.mean (reals (ape [4; 2] [2; 3]))).
Proof.
  split.
  - apply (compute_MAPE_zero_target_and_mean [0; 2] [1; 2] eq_refl).
    apply elem_of_cons. by left.
  - apply (compute_MAPE_zero_target_and_mean [4; 2] [2; 3] eq_refl).
    rewrite !not_elem_of_cons. repeat split; try lra. apply not_elem_of_nil.
Defined.

(** C5 as stated fails: with the target 0 and the prediction 1,
    [compute_MAPE] returns [inf]; it raises no [UndefinedMetricError]. *)
Lemma compute_MAPE_returns_inf :
  experiments.compute_MAPE (reals [0]) (reals [1]) = Ret PInf /\
  ~ raises (experiments.compute_MAPE (reals [0]) (reals [1]))
      "UndefinedMetricError".
Proof.
  assert (Hv : experiments.compute_MAPE (reals [0]) (reals [1]) = Ret PInf).
  { unfold experiments.compute_MAPE. simpl. f_equal.
    unfold np.mean, np.sum, np.div, np.sub, np.add, np.abs. simpl.
    rewrite (sign_Eq 0) by done.
    assert (Ha : Rabs (0 + - (1)) = 1)
      by (unfold Rabs; destruct (Rcase_abs _); lra).
    rewrite Ha. rewrite (sign_Gt 1) by lra. done. }
  split; [exact Hv|]. unfold raises. rewrite Hv. discriminate.
Qed.

(** ** The denominator of R2 *)

Lemma r2_num_reals p y : experiments.r2_num (reals p) (reals y) = Fin (ss_res y p).
Proof.
  unfold experiments.r2_num, ss_res.
  enough (Hz : np.square <$> zip_with np.sub (reals p) (reals y)
               = reals (zip_with (fun a b => (b - a) * (b - a)) y p))
    by (by rewrite Hz, sum_reals).
  revert y. induction p as [|b p IH]; intros [|a y]; try done.
  change (reals (b :: p)) with (Fin b :: reals p).
  change (reals (a :: y)) with (Fin a :: reals y).
  simpl. change (reals (?x :: ?l)) with (Fin x :: reals l).
  f_equal. apply IH.
Qed.

Lemma r2_denum_reals y :
  y <> [] -> experiments.r2_denum (reals y) = Fin (ss_tot y).
Proof.
  intros Hy. unfold experiments.r2_denum, ss_tot.
  rewrite (mean_reals y Hy). generalize (Rmean y). intros m.
  enough (Hz : np.square <$> ((fun v => np.sub v (Fin m)) <$> reals y)
               = reals ((fun v => (v - m) * (v - m)) <$> y))
    by (by rewrite Hz, sum_reals).
  clear Hy. induction y as [|a y IH]; [done|].
  change (reals (a :: y)) with (Fin a :: reals y).
  simpl. change (reals (?x :: ?l)) with (Fin x :: reals l).
  f_equal. apply IH.
Qed.

Lemma ss_tot_pos y a b : a ∈ y -> b ∈ y -> a <> b -> 0 < ss_tot y.
Proof.
  intros Ha Hb Hab. unfold ss_tot. generalize (Rmean y). intros m.
  apply Rsum_pos.
  - apply Forall_fmap, Forall_forall. intros v _. simpl.
    exact (Rle_0_sqr (v - m)).
  - apply Exists_fmap, Exists_exists.
    destruct (Req_dec_T a m) as [Ham|Ham].
    + exists b. split; [done|]. simpl.
      assert (b - m <> 0) by lra. nra.
    + exists a. split; [done|]. simpl.
      assert (a - m <> 0) by lra. nra.
Qed.

Lemma ss_tot_constant y :
  (forall a b, a ∈ y -> b ∈ y -> a = b) -> ss_tot y = 0.
Proof.
  intros Hc. destruct y as [|c y]; [done|].
  assert (Hall : Forall (fun x => x = c) (c :: y)).
  { apply Forall_forall. intros x Hx. apply Hc; [done|]. apply elem_of_cons.
    by left. }
  assert (Hm : Rmean (c :: y) = c).
  { unfold Rmean. rewrite (Rsum_constant c _ Hall).
    pose proof (INR_length_pos (c :: y)) as Hn. field.
    assert (0 < INR (length (c :: y))) by (by apply Hn). lra. }
  unfold ss_tot. rewrite Hm. apply Rsum_zero.
  apply Forall_fmap. eapply Forall_impl; [exact Hall|].
  intros x ->. simpl. lra.
Qed.

(** In exact arithmetic the denominator of [compute_r2] is the centered
    sum of squares SS_tot of [y_true]: positive with two distinct
    targets, where the result is the finite [1 - SS_res / SS_tot], and
    0 for constant targets, where the call returns [-inf] or [nan].
    Rounding is what this leaves out; the float64 statements follow. *)
Lemma exact_r2_denominator `{Argsort} (y_true y_pred : list R) :
  length y_true = length y_pred ->
  exists ys,
    np.take (reals y_true) (argsort (reals y_true)) = Ret ys /\
    ((exists a b, a ∈ y_true /\ b ∈ y_true /\ a <> b) ->
       experiments.r2_denum ys = Fin (ss_tot y_true) /\
       0 < ss_tot y_true /\
       experiments.compute_r2 (reals y_true) (reals y_pred)
         = Ret (Fin (1 - ss_res y_true y_pred / ss_tot y_true))) /\
    ((forall a b, a ∈ y_true -> b ∈ y_true -> a = b) ->
       experiments.r2_denum ys = Fin 0 /\
       (experiments.compute_r2 (reals y_true) (reals y_pred) = Ret NInf \/
        experiments.compute_r2 (reals y_true) (reals y_pred) = Ret NaN)).
Proof.
  intros Hlen.
  assert (Hl : (length (reals y_true) <= length (reals y_pred))%nat)
    by (rewrite !length_reals; lia).
  destruct (sorted_view (reals y_true) (reals y_pred) Hl)
    as (ys & ps & Hys & _ & Hly & Hlp & Hz).
  assert (Hperm : ys ≡ₚ reals y_true).
  { rewrite <- (fst_zip ys ps) by lia.
    rewrite <- (fst_zip (reals y_true) (reals y_pred)) by done.
    by rewrite Hz. }
  exists ys. split; [done|].
  rewrite (r2_denum_perm _ _ Hperm), compute_r2_unsorted by done.
  unfold r2_of. rewrite r2_num_reals.
  assert (Hden : experiments.r2_denum (reals y_true) = Fin (ss_tot y_true)).
  { destruct y_true as [|c y]; [done|]. by apply r2_denum_reals. }
  rewrite Hden. split.
  - intros (a & b & Ha & Hb & Hab).
    pose proof (ss_tot_pos _ _ _ Ha Hb Hab) as Hpos.
    split; [done|]. split; [done|].
    rewrite div_Fin by lra. done.
  - intros Hc. rewrite (ss_tot_constant _ Hc). split; [done|].
    unfold np.div. rewrite (sign_Eq 0) by done.
    pose proof (sign_spec (ss_res y_true y_pred)) as Hs.
    pose proof (ss_res_nonneg y_true y_pred).
    destruct (np.sign (ss_res y_true y_pred)); [by right|lra|by left].
Qed.

(** ** Division in float64 *)

(** A float is read through its IEEE 754 datum ([Prim2SF]): a zero, an
    infinity, [nan] or a finite number. *)
Lemma is_zero_SF (x : float) :
  PrimFloat.is_zero x = true -> exists s, Prim2SF x = S754_zero s.
Proof.
  unfold PrimFloat.is_zero. rewrite FloatAxioms.eqb_spec.
  change (Prim2SF PrimFloat.zero) with (S754_zero false).
  unfold SFeqb, SFcompare.
  destruct (Prim2SF x) as [s|s| |s m e]; try discriminate.
  - by exists s.
  - destruct s; discriminate.
  - destruct s; discriminate.
Qed.

Lemma SF_is_zero (x : float) s :
  Prim2SF x = S754_zero s -> PrimFloat.is_zero x = true.
Proof.
  intros Hx. unfold PrimFloat.is_zero. rewrite FloatAxioms.eqb_spec, Hx.
  reflexivity.
Qed.

Lemma is_finite_SF (x : float) :
  PrimFloat.is_finite x = true ->
  (exists s, Prim2SF x = S754_zero s) \/
  (exists s m e, Prim2SF x = S754_finite s m e).
Proof.
  unfold PrimFloat.is_finite, PrimFloat.is_nan, PrimFloat.is_infinity.
  rewrite !FloatAxioms.eqb_spec, FloatAxioms.abs_spec.
  change (Prim2SF PrimFloat.infinity) with (S754_infinity false).
  destruct (Prim2SF x) as [s|s| |s m e]; try discriminate; eauto.
  by destruct s.
Qed.

Lemma not_finite_SF (v : float) :
  Prim2SF v = S754_nan \/ (exists s, Prim2SF v = S754_infinity s) ->
  PrimFloat.is_finite v = false.
Proof.
  unfold PrimFloat.is_finite, PrimFloat.is_nan, PrimFloat.is_infinity.
  rewrite !FloatAxioms.eqb_spec, FloatAxioms.abs_spec.
  change (Prim2SF PrimFloat.infinity) with (S754_infinity false).
  intros [->|[s ->]]; [reflexivity|]. by destruct s.
Qed.

(** Whatever [x] is, [1 - x / d] with [d] a zero is an infinity or
    [nan]. *)
Lemma div_by_zero_not_finite (x d : float) :
  PrimFloat.is_zero d = true -> PrimFloat.is_finite (1 - x / d) = false.
Proof.
  intros [s Hd]%is_zero_SF. apply not_finite_SF.
  rewrite FloatAxioms.sub_spec, FloatAxioms.div_spec, Hd.
  change (Prim2SF 1) with (S754_finite false 4503599627370496 (-52)).
  unfold SF64div, SFdiv, SF64sub, SFsub.
  destruct (Prim2SF x) as [sx|sx| |sx mx ex]; eauto.
Qed.

(** A finite float minus itself is a zero, and so is its square. *)
Lemma square_sub_self (c : float) :
  PrimFloat.is_finite c = true ->
  PrimFloat.is_zero (np64.square (c - c)) = true.
Proof.
  intros Hc. apply (SF_is_zero _ false). unfold np64.square.
  rewrite FloatAxioms.mul_spec, FloatAxioms.sub_spec.
  destruct (is_finite_SF c Hc) as [[s ->]|(s & m & e & ->)].
  - by destruct s.
  - unfold SF64sub, SFsub. rewrite Z.sub_diag. reflexivity.
Qed.

Lemma add_zeros (x y : float) :
  PrimFloat.is_zero x = true -> PrimFloat.is_zero y = true ->
  PrimFloat.is_zero (x + y) = true.
Proof.
  intros [sx Hx]%is_zero_SF [sy Hy]%is_zero_SF.
  apply (SF_is_zero _ (sx && sy)). rewrite FloatAxioms.add_spec, Hx, Hy.
  by destruct sx, sy.
Qed.

Lemma add_reduce_zeros (l : list float) :
  Forall (fun x => PrimFloat.is_zero x = true) l ->
  PrimFloat.is_zero (np64.add_reduce l) = true.
Proof.
  unfold np64.add_reduce.
  assert (H0 : PrimFloat.is_zero 0 = true) by reflexivity.
  revert H0. generalize 0%float as acc.
  induction l as [|x l IH]; intros acc Hacc Hl; [done|].
  inversion Hl; subst. simpl. apply IH; [by apply add_zeros|done].
Qed.

(** C10 (as the code has it): [compute_r2] divides by the float64 value
    that it computes for the centered sum of squares of [y_true], with
    no guard.  On arrays of one length it raises nothing and returns
    [1 - num / denum]; when the computed denominator is a zero that
    value is an infinity or [nan], never a finite number; and the
    computed denominator is a zero whenever every target is finite and
    equal to the computed mean.  This holds for any order of summation
    [reduce] that adds zeros to a zero, and for any sorting
    algorithm. *)
Theorem compute_r2_divides_without_guard (reduce : list float -> float)
    (argsort : list float -> list nat) (y_true y_pred : list float) :
  (forall l, Forall (fun x => PrimFloat.is_zero x = true) l ->
             PrimFloat.is_zero (reduce l) = true) ->
  argsort y_true ≡ₚ seq 0 (length y_true) ->
  length y_true = length y_pred ->
  exists ys ps,
    np.take y_true (argsort y_true) = Ret ys /\
    np.take y_pred (argsort y_true) = Ret ps /\
    let num := evaluators.r2_num (np64.arithmetic reduce) ps ys in
    let denum := evaluators.r2_denum (np64.arithmetic reduce) ys in
    evaluators.compute_r2 (np64.arithmetic reduce) argsort y_true y_pred
      = Ret (1 - num / denum)%float /\
    (PrimFloat.is_zero denum = true ->
     PrimFloat.is_finite (1 - num / denum) = false) /\
    (Forall (fun v => PrimFloat.is_finite v = true /\
                      v = np64.mean reduce ys) ys ->
     PrimFloat.is_zero denum = true).
Proof.
  intros Hreduce Ho Hlen.
  destruct (gather_pairs y_true y_pred (argsort y_true) Ho)
    as (ys & ps & Hys & Hps & _); [lia|].
  exists ys, ps. split; [done|]. split; [done|]. split; [|split].
  - unfold evaluators.compute_r2. by rewrite Hps, Hys.
  - apply div_by_zero_not_finite.
  - intros Hc. unfold evaluators.r2_denum. simpl.
    apply Hreduce. rewrite <- list_fmap_compose.
    apply Forall_fmap. eapply Forall_impl; [exact Hc|].
    intros v [Hv Hm]. simpl. rewrite <- Hm. by apply square_sub_self.
Qed.

Lemma compute_r2_divides_without_guard_witness :
  exists ys ps,
    np.take [2; 2]%float (np64.argsort [2; 2]%float) = Ret ys /\
    np.take [1; 2]%float (np64.argsort [2; 2]%float) = Ret ps /\
    let num := evaluators.r2_num binary64 ps ys in
    let denum := evaluators.r2_denum binary64 ys in
    evaluators.compute_r2 binary64 np64.argsort [2; 2]%float [1; 2]%float
      = Ret (1 - num / denum)%float /\
    (PrimFloat.is_zero denum = true ->
     PrimFloat.is_finite (1 - num / denum) = false) /\
    (Forall (fun v => PrimFloat.is_finite v = true /\
                      v = np64.mean np64.add_reduce ys) ys ->
     PrimFloat.is_zero denum = true).
Proof.
  apply (compute_r2_divides_without_guard np64.add_reduce np64.argsort
           [2; 2]%float [1; 2]%float).
  - apply add_reduce_zeros.
  - vm_compute. reflexivity.
  - reflexivity.
Defined.

(** C10 as stated fails in float64, both ways.  The constant targets
    [0.1, 0.1, 0.1] have the computed mean 0.10000000000000002, so the
    computed denominator is not 0 (it is about 5.8e-34) and the result
    is a finite number; on the constant targets [2, 2] the division is
    by zero and the result is [-inf].  The distinct targets
    [0, 1e-170] have squared deviations that underflow to 0, so the
    computed denominator is 0 and, with exact predictions, the result
    is [nan]. *)
Lemma compute_r2_denominator_is_rounded :
  (PrimFloat.is_zero (evaluators.r2_denum binary64 [0.1; 0.1; 0.1]%float)
     = false /\
   np64.mean np64.add_reduce [0.1; 0.1; 0.1]%float
     = 0.10000000000000002%float /\
   exists v,
     evaluators.compute_r2 binary64 np64.argsort
       [0.1; 0.1; 0.1]%float [0.1; 0.1; 0.2]%float = Ret v /\
     PrimFloat.is_finite v = true) /\
  evaluators.compute_r2 binary64 np64.argsort [2; 2]%float [1; 2]%float
    = Ret PrimFloat.neg_infinity /\
  (PrimFloat.is_zero (evaluators.r2_denum binary64 [0; 1e-170]%float) = true /\
   evaluators.compute_r2 binary64 np64.argsort
     [0; 1e-170]%float [0; 1e-170]%float = Ret PrimFloat.nan).
Proof.
  repeat split; try (vm_compute; reflexivity).
  eexists. split; vm_compute; reflexivity.
Qed.

(** ** The width conversion of kerES *)

(** C6: [gamma] returns its argument unchanged.  It is not the
    conversion [1 / (2 l^2)] of its docstring: on a finite [l] the two
    agree only where [2 l^3 = 1], and for instance [gamma(1)] is 1 and
    not 1/2. *)
Theorem gamma_is_identity :
  (forall l, kerES.gamma l = l) /\
  (forall r, kerES.gamma (Fin r) = kerES.gamma_docstring (Fin r)
             <-> 2 * (r * r * r) = 1) /\
  kerES.gamma (Fin 1) = Fin 1 /\
  kerES.gamma_docstring (Fin 1) = Fin (1 / 2).
Proof.
  split; [done|]. split; [|split; [done|]].
  - intros r. unfold kerES.gamma, kerES.gamma_docstring, np.square.
    change (np.mul (Fin r) (Fin r)) with (Fin (r * r)).
    change (np.mul (Fin 2) (Fin (r * r))) with (Fin (2 * (r * r))).
    destruct (Req_dec_T r 0) as [->|Hr].
    + unfold np.div. rewrite (sign_Eq (2 * (0 * 0))) by lra.
      rewrite (sign_Gt 1) by lra. split; [done|lra].
    + assert (Hrr : 2 * (r * r) <> 0) by nra.
      rewrite div_Fin by done. split.
      * intros Heq. injection Heq as Heq.
        assert (r * (2 * (r * r)) = 1) by (rewrite Heq at 1; by field).
        lra.
      * intros Heq. f_equal. apply (Rmult_eq_reg_r (2 * (r * r))); [|done].
        field_simplify; lra.
  - unfold kerES.gamma_docstring, np.square.
    change (np.mul (Fin 1) (Fin 1)) with (Fin (1 * 1)).
    change (np.mul (Fin 2) (Fin (1 * 1))) with (Fin (2 * (1 * 1))).
    rewrite div_Fin by lra. f_equal. lra.
Qed.

(** ** Running the entry points *)

Lemma run_bind_lift {A B} (r : result A) (a : A) (f : A -> prog B) tr :
  r = Ret a -> (lift r ≫= f) tr = f a tr.
Proof. intros ->. reflexivity. Qed.

Lemma run_bind_call {B} (ev : event) (f : unit -> prog B) tr :
  (call ev ≫= f) tr = f () (tr ++ [ev]).
Proof. reflexivity. Qed.

Lemma run_bind_assoc {A B C} (m : prog A) (f : A -> prog B) (g : B -> prog C) tr :
  ((m ≫= f) ≫= g) tr = (m ≫= fun a => f a ≫= g) tr.
Proof.
  unfold mbind, prog_bind. destruct (m tr) as [[a|e] tr']; reflexivity.
Qed.

Lemma run_bind_ret {B} (f : unit -> prog B) tr : (mret () ≫= f) tr = f () tr.
Proof. reflexivity. Qed.

Lemma norm_index_nonneg len i :
  (0 <= i < Z.of_nat len)%Z -> np.norm_index len i = Some (Z.to_nat i).
Proof.
  intros Hi. unfold np.norm_index.
  destruct (decide (i < 0)%Z); [lia|]. by rewrite decide_True.
Qed.

Lemma fancy_in_range {A} (a : list A) (idx : list Z) :
  Forall (fun i => (0 <= i < Z.of_nat (length a))%Z) idx ->
  exists l, fancy a idx = Ret l.
Proof.
  unfold fancy. induction 1 as [|i idx Hi _ [l IH]]; [by exists []|].
  simpl. rewrite norm_index_nonneg by done. simpl.
  destruct (lookup_lt_is_Some_2 a (Z.to_nat i)) as [x Hx]; [lia|].
  rewrite Hx. simpl. rewrite IH. simpl. by eexists.
Qed.

Section entry_points_run.
Context `{Argsort}.
Variable bag : Type.
Variable gp : GP_backend.

Lemma on_columns_run {B} f (y m : matrix) a b v (k : npfloat -> prog B) tr :
  col0 y = Ret a -> col0 m = Ret b -> f a b = Ret v ->
  (experiments.on_columns f y m ≫= k) tr = k v tr.
Proof.
  intros Ha Hb Hv. unfold experiments.on_columns.
  rewrite run_bind_assoc, (run_bind_lift _ _ _ _ Ha).
  rewrite run_bind_assoc, (run_bind_lift _ _ _ _ Hb).
  by rewrite (run_bind_lift _ _ _ _ Hv).
Qed.

(** [plot_fit] returns when [y_] is not empty and [pred] and [std] have
    an entry for each of its indices; it leaves eight plotting calls in
    the trace. *)
Lemma plot_fit_run {B} (y_ pred std : list npfloat) (k : unit -> prog B) tr :
  y_ <> [] -> (length y_ <= length pred)%nat -> (length y_ <= length std)%nat ->
  exists tr', (experiments.plot_fit y_ pred std ≫= k) tr = k () tr'.
Proof.
  intros Hy Hp Hs. unfold experiments.plot_fit.
  pose proof (argsort_perm y_) as Hperm.
  rewrite run_bind_assoc.
  rewrite (run_bind_lift _ () _ _) by (by destruct y_).
  rewrite run_bind_assoc, run_bind_call.
  rewrite run_bind_assoc,
    (run_bind_lift _ _ _ _
       (take_in_range NaN y_ _ (perm_seq_in_range _ _ _ Hperm (le_n _)))).
  rewrite run_bind_assoc,
    (run_bind_lift _ _ _ _
       (take_in_range NaN pred _ (perm_seq_in_range _ _ _ Hperm Hp))).
  rewrite run_bind_assoc, run_bind_call.
  rewrite run_bind_assoc,
    (run_bind_lift _ _ _ _
       (take_in_range NaN std _ (perm_seq_in_range _ _ _ Hperm Hs))).
  rewrite run_bind_assoc, run_bind_call.
  rewrite run_bind_assoc, run_bind_call.
  rewrite run_bind_assoc, run_bind_call.
  rewrite run_bind_assoc, run_bind_call.
  rewrite run_bind_assoc, run_bind_call.
  rewrite run_bind_call. by eexists.
Qed.

End entry_points_run.

(** ** What the entry points return *)

Ltac run_plot_fit :=
  match goal with
  | |- context [(experiments.plot_fit ?a ?b ?s ≫= ?k) ?tr] =>
      destruct (plot_fit_run a b s k tr) as [? ->]; [done|done|done|]
  end.

Ltac run_entry_point :=
  repeat first
    [ rewrite run_bind_call
    | rewrite run_bind_ret
    | erewrite run_bind_lift by eassumption
    | erewrite on_columns_run
        by first [ eassumption
                 | apply compute_r2_unsorted; assumption
                 | apply compute_rmse_unsorted; assumption
                 | apply compute_MAPE_unsorted; assumption ]
    | run_plot_fit
    | rewrite run_bind_assoc ].

Section entry_point_results.
Context `{Argsort}.
Variables (bag : Type) (gp : GP_backend).
Variables (x : list bag) (K_precomputed y : matrix).
Variables (train_index test_index : list Z) (param_init : list npfloat).
Variables (y_train y_test : matrix) (x_train x_test : list bag).
Variables (yt yte mt mte : list npfloat).

Hypothesis Hy_train : fancy y train_index = Ret y_train.
Hypothesis Hy_test : fancy y test_index = Ret y_test.
Hypothesis Hx_train : fancy x train_index = Ret x_train.
Hypothesis Hx_test : fancy x test_index = Ret x_test.
Hypothesis Hyt : col0 y_train = Ret yt.
Hypothesis Hyte : col0 y_test = Ret yte.
Hypothesis Hmt : col0 (mu (predict_train gp)) = Ret mt.
Hypothesis Hmte : col0 (mu (predict_test gp)) = Ret mte.
Hypothesis Hlen_t : (length yt <= length mt)%nat.
Hypothesis Hlen_te : (length yte <= length mte)%nat.
Hypothesis Hstd_t : (length yt <= length (stdv (predict_train gp)))%nat.
Hypothesis Hstd_te : (length yte <= length (stdv (predict_test gp)))%nat.
Hypothesis Hne_t : yt <> [].
Hypothesis Hne_te : yte <> [].

Lemma naive_experiment_returns plot :
  (4 <= length param_init)%nat ->
  (experiments.naive_experiment bag gp x y train_index test_index
     param_init plot [] ).1 = Ret (six_metrics yt mt yte mte).
Proof.
  intros Hp.
  destruct (fancy_in_range param_init [0; 1; 2; 3]%Z) as [ps Hps];
    [repeat constructor; lia|].
  unfold experiments.naive_experiment.
  destruct plot; unfold when; run_entry_point; reflexivity.
Qed.

Lemma experiment_precomputed_returns RBF plot :
  (3 <= length param_init)%nat ->
  (experiments.experiment_precomputed gp K_precomputed y train_index
     test_index param_init RBF plot []).1 = Ret (six_metrics yt mt yte mte).
Proof.
  intros Hp.
  destruct (fancy_in_range param_init [0; 1; 2]%Z) as [ps Hps];
    [repeat constructor; lia|].
  unfold experiments.experiment_precomputed.
  destruct plot, RBF; unfold when; run_entry_point; reflexivity.
Qed.

Lemma experiment_ARD_returns RBF full :
  (3 <= length param_init)%nat ->
  (experiments.experiment_ARD bag gp x y train_index test_index
     param_init RBF true full []).1
  = Ret (four_metrics yt mt yte mte
           ++ if full then [PyArray (fitted_lengthscales gp)] else []).
Proof.
  intros Hp.
  destruct (fancy_in_range param_init [0; 1; 2]%Z) as [ps Hps];
    [repeat constructor; lia|].
  assert (Hplot : (if true then Ret () else Raise "UnboundLocalError")
                  = Ret ()) by reflexivity.
  unfold experiments.experiment_ARD.
  destruct RBF, full; unfold when; run_entry_point; reflexivity.
Qed.

End entry_point_results.

(** C4 (as the code has it): on inputs for which the indexing succeeds
    and the predictions cover the targets, [naive_experiment] and
    [experiment_precomputed] return the six metrics (train RMSE, train
    R2, train MAPE, test RMSE, test R2, test MAPE), while
    [experiment_ARD] (called with [plot] set) returns the four metrics
    (train RMSE, train R2, test RMSE, test R2), followed in the full-ARD
    variant by the fitted lengthscales. *)
Theorem entry_points_return_metric_tuples `{Argsort}
    (bag : Type) (gp : GP_backend) (x : list bag) (K_precomputed y : matrix)
    (train_index test_index : list Z) (param_init : list npfloat)
    (y_train y_test : matrix) (x_train x_test : list bag)
    (yt yte mt mte : list npfloat) :
  fancy y train_index = Ret y_train ->
  fancy y test_index = Ret y_test ->
  fancy x train_index = Ret x_train ->
  fancy x test_index = Ret x_test ->
  col0 y_train = Ret yt ->
  col0 y_test = Ret yte ->
  col0 (mu (predict_train gp)) = Ret mt ->
  col0 (mu (predict_test gp)) = Ret mte ->
  (length yt <= length mt)%nat ->
  (length yte <= length mte)%nat ->
  (length yt <= length (stdv (predict_train gp)))%nat ->
  (length yte <= length (stdv (predict_test gp)))%nat ->
  yt <> [] -> yte <> [] ->
  (4 <= length param_init)%nat ->
  (forall plot,
     (experiments.naive_experiment bag gp x y train_index test_index
        param_init plot []).1 = Ret (six_metrics yt mt yte mte)) /\
  (forall RBF plot,
     (experiments.experiment_precomputed gp K_precomputed y train_index
        test_index param_init RBF plot []).1
       = Ret (six_metrics yt mt yte mte)) /\
  (forall RBF,
     (experiments.experiment_ARD bag gp x y train_index test_index
        param_init RBF true false []).1
       = Ret (four_metrics yt mt yte mte)) /\
  (forall RBF,
     (experiments.experiment_ARD bag gp x y train_index test_index
        param_init RBF true true []).1
       = Ret (four_metrics yt mt yte mte
                ++ [PyArray (fitted_lengthscales gp)])).
Proof.
  intros ? ? ? ? ? ? ? ? ? ? ? ? ? ? Hp. repeat split; intros.
  - by eapply naive_experiment_returns.
  - eapply experiment_precomputed_returns; eauto; lia.
  - rewrite (experiment_ARD_returns bag gp x y train_index test_index
               param_init y_train y_test x_train x_test yt yte mt mte)
      by (done || lia).
    apply f_equal, app_nil_r.
  - rewrite (experiment_ARD_returns bag gp x y train_index test_index
               param_init y_train y_test x_train x_test yt yte mt mte)
      by (done || lia).
    done.
Qed.

Lemma entry_points_return_metric_tuples_witness :
  (forall plot,
     (experiments.naive_experiment unit toy_gp [(); ()] toy_y [0%Z] [1%Z]
        [Fin 0; Fin 0; Fin 0; Fin 0] plot []).1
       = Ret (six_metrics [Fin 1] [Fin 1] [Fin 2] [Fin 2])) /\
  (forall RBF plot,
     (experiments.experiment_precomputed toy_gp [] toy_y [0%Z] [1%Z]
        [Fin 0; Fin 0; Fin 0; Fin 0] RBF plot []).1
       = Ret (six_metrics [Fin 1] [Fin 1] [Fin 2] [Fin 2])) /\
  (forall RBF,
     (experiments.experiment_ARD unit toy_gp [(); ()] toy_y [0%Z] [1%Z]
        [Fin 0; Fin 0; Fin 0; Fin 0] RBF true false []).1
       = Ret (four_metrics [Fin 1] [Fin 1] [Fin 2] [Fin 2])) /\
  (forall RBF,
     (experiments.experiment_ARD unit toy_gp [(); ()] toy_y [0%Z] [1%Z]
        [Fin 0; Fin 0; Fin 0; Fin 0] RBF true true []).1
       = Ret (four_metrics [Fin 1] [Fin 1] [Fin 2] [Fin 2]
                ++ [PyArray [Fin 1]])).
Proof.
  apply (entry_points_return_metric_tuples unit toy_gp [(); ()] [] toy_y
           [0%Z] [1%Z] [Fin 0; Fin 0; Fin 0; Fin 0]
           [[Fin 1]] [[Fin 2]] [()] [()] [Fin 1] [Fin 2] [Fin 1] [Fin 2]);
    try reflexivity; simpl; (lia || discriminate).
Defined.

(** C4 as stated fails: on the toy data [experiment_ARD] returns four
    values, not six; with [full] set it returns five, the lengthscales
    last. *)
Lemma experiment_ARD_returns_four_metrics :
  (exists v,
     (experiments.experiment_ARD unit toy_gp [(); ()] toy_y [0%Z] [1%Z]
        [Fin 0; Fin 0; Fin 0] false true false []).1 = Ret v /\
     length v = 4%nat) /\
  (exists v,
     (experiments.experiment_ARD unit toy_gp [(); ()] toy_y [0%Z] [1%Z]
        [Fin 0; Fin 0; Fin 0] false true true []).1 = Ret v /\
     length v = 5%nat).
Proof.
  split; eexists; (split; [vm_compute; reflexivity|reflexivity]).
Qed.

(** ** The training calls *)

Lemma emits_ret P {A} (a : A) : emits P (mret a : prog A).
Proof. intros tr Htr. exact Htr. Qed.

Lemma emits_lift P {A} (r : result A) : emits P (lift r).
Proof. intros tr Htr. exact Htr. Qed.

Lemma emits_call (P : event -> Prop) ev : P ev -> emits P (call ev).
Proof.
  intros Hev tr Htr. simpl. apply Forall_app. split; [done|].
  by apply Forall_singleton.
Qed.

Lemma emits_bind P {A B} (m : prog A) (f : A -> prog B) :
  emits P m -> (forall a, emits P (f a)) -> emits P (m ≫= f).
Proof.
  intros Hm Hf tr Htr. specialize (Hm tr Htr).
  unfold mbind, prog_bind. destruct (m tr) as [[a|e] tr']; simpl in *.
  - by apply Hf.
  - done.
Qed.

Lemma emits_when P b (m : prog unit) : emits P m -> emits P (when b m).
Proof. intros Hm. destruct b; [done|apply emits_ret]. Qed.

Ltac emits_tac :=
  repeat first
    [ apply emits_ret
    | apply emits_lift
    | apply emits_call; exact I
    | apply emits_call; reflexivity
    | apply emits_when
    | apply emits_bind; [|intros ?] ].

Section training_calls.
Context `{Argsort}.
Variables (bag : Type) (gp : GP_backend).

Lemma emits_plot_fit P y_ pred std :
  (forall what, P (Plot what)) -> emits P (experiments.plot_fit y_ pred std).
Proof.
  intros HP. unfold experiments.plot_fit.
  repeat first [ apply emits_lift | apply emits_call; apply HP
               | apply emits_bind; [|intros ?] ].
Qed.

Lemma emits_on_columns P f y m : emits P (experiments.on_columns f y m).
Proof. unfold experiments.on_columns. emits_tac. Qed.

Lemma naive_experiment_budget x y train_index test_index param_init plot :
  emits (budget_is 2000)
    (experiments.naive_experiment bag gp x y train_index test_index
       param_init plot).
Proof.
  unfold experiments.naive_experiment. destruct plot;
    repeat first [ apply emits_on_columns
                 | apply emits_plot_fit; intros ?; exact I
                 | progress emits_tac ].
Qed.

Lemma experiment_precomputed_budget K y train_index test_index param_init
    RBF plot :
  emits (budget_is 20000)
    (experiments.experiment_precomputed gp K y train_index test_index
       param_init RBF plot).
Proof.
  unfold experiments.experiment_precomputed. destruct plot, RBF;
    repeat first [ apply emits_on_columns
                 | apply emits_plot_fit; intros ?; exact I
                 | progress emits_tac ].
Qed.

Lemma experiment_ARD_budget data y train_index test_index param_init
    RBF plot full :
  emits (budget_is 3000)
    (experiments.experiment_ARD bag gp data y train_index test_index
       param_init RBF plot full).
Proof.
  unfold experiments.experiment_ARD. destruct plot, RBF, full;
    repeat first [ apply emits_on_columns
                 | apply emits_plot_fit; intros ?; exact I
                 | progress emits_tac ].
Qed.

End training_calls.

Lemma train_steps {theta} (objective : theta -> npfloat) update n th curve :
  (train objective update n th curve).1 = Nat.iter n update th /\
  length (train objective update n th curve).2 = (length curve + n)%nat.
Proof.
  revert th curve. induction n as [|n IH]; intros th curve; simpl.
  - split; [done|lia].
  - destruct (IH (update th) (curve ++ [objective th])) as [IH1 IH2].
    rewrite IH1, IH2, length_app. simpl. split; [|lia].
    clear. induction n as [|n IHn]; [done|]. simpl. by rewrite IHn.
Qed.

(** C9: every training call that an entry point makes passes its fixed
    literal step budget (2000 for [naive_experiment], 20000 for
    [experiment_precomputed], 3000 for [experiment_ARD], all within
    2000..20000), whatever the inputs and wherever the run ends; and
    the trainer makes exactly that many steps, also from a point that
    an update leaves unchanged and through non-finite objectives. *)
Theorem training_runs_a_fixed_step_budget `{Argsort}
    (bag : Type) (gp : GP_backend) :
  (forall x y train_index test_index param_init plot,
     Forall (budget_is 2000)
       (experiments.naive_experiment bag gp x y train_index test_index
          param_init plot []).2) /\
  (forall K y train_index test_index param_init RBF plot,
     Forall (budget_is 20000)
       (experiments.experiment_precomputed gp K y train_index test_index
          param_init RBF plot []).2) /\
  (forall data y train_index test_index param_init RBF plot full,
     Forall (budget_is 3000)
       (experiments.experiment_ARD bag gp data y train_index test_index
          param_init RBF plot full []).2) /\
  (forall b, b = 2000 \/ b = 20000 \/ b = 3000 -> 2000 <= b <= 20000)%Z /\
  (forall (theta : Type) (objective : theta -> npfloat)
          (update : theta -> theta) (num_steps : nat) (th : theta),
     (train objective update num_steps th []).1
       = Nat.iter num_steps update th /\
     length (train objective update num_steps th []).2 = num_steps).
Proof.
  split; [|split; [|split; [|split]]].
  - intros. by apply naive_experiment_budget.
  - intros. by apply experiment_precomputed_budget.
  - intros. by apply experiment_ARD_budget.
  - intros b [->|[->| ->]]; lia.
  - intros. apply (train_steps objective update num_steps th []).
Qed.

(** A run of each entry point on the toy data does reach its training
    call. *)
Example toy_runs_train :
  Train GP_naive 2000 false ∈
    (experiments.naive_experiment unit toy_gp [(); ()] toy_y [0%Z] [1%Z]
       [Fin 0; Fin 0; Fin 0; Fin 0] false []).2 /\
  Train GP_sig 20000 false ∈
    (experiments.experiment_precomputed toy_gp [] toy_y [0%Z] [1%Z]
       [Fin 0; Fin 0; Fin 0] false false []).2 /\
  Train GP_sig_ARD 3000 true ∈
    (experiments.experiment_ARD unit toy_gp [(); ()] toy_y [0%Z] [1%Z]
       [Fin 0; Fin 0; Fin 0] false true false []).2.
Proof.
  repeat split; apply list_elem_of_In; vm_compute;
    repeat (first [left; reflexivity | right]).
Qed.

(** * Further properties of the kernel matrices *)

Lemma mul_comm x y : np.mul x y = np.mul y x.
Proof. destruct x, y; unfold np.mul; try reflexivity. f_equal. lra. Qed.

Lemma kernel_comm a b : kernel a b = kernel b a.
Proof.
  unfold kernel. f_equal. f_equal.
  revert b. induction a as [|x a IH]; intros [|y b]; try done.
  simpl. by rewrite mul_comm, IH.
Qed.

Lemma matrix_ext r c (M M' : matrix) :
  is_matrix r c M -> is_matrix r c M' ->
  (forall a b, (a < r)%nat -> (b < c)%nat -> entry M a b = entry M' a b) ->
  M = M'.
Proof.
  intros [Hr Hc] [Hr' Hc'] Hent. apply list_eq. intros a.
  destruct (decide (a < r)%nat) as [Ha|Ha].
  - destruct (lookup_lt_is_Some_2 M a) as [row Hrow]; [lia|].
    destruct (lookup_lt_is_Some_2 M' a) as [row' Hrow']; [lia|].
    rewrite Hrow, Hrow'. f_equal. apply list_eq. intros b.
    pose proof (Forall_lookup_1 _ _ _ _ Hc Hrow) as Hl.
    pose proof (Forall_lookup_1 _ _ _ _ Hc' Hrow') as Hl'. simpl in *.
    destruct (decide (b < c)%nat) as [Hb|Hb].
    + specialize (Hent a b Ha Hb). unfold entry in Hent.
      by rewrite Hrow, Hrow' in Hent.
    + rewrite !(proj2 (lookup_ge_None _ _)) by lia. done.
  - rewrite !(proj2 (lookup_ge_None _ _)) by lia. done.
Qed.

(** X1: [precompute_K] returns a matrix exactly when all the vectors of
    [X] have one length, whatever floats they hold; the matrix is then
    square and symmetric. *)
Theorem precompute_K_returns_iff_one_length (X : list (list npfloat)) :
  ((exists K, experiments.precompute_K X = Ret K) <->
   (forall a b, a ∈ X -> b ∈ X -> length a = length b)) /\
  (forall K, experiments.precompute_K X = Ret K ->
     is_matrix (length X) (length X) K /\
     forall i j, entry K i j = entry K j i).
Proof.
  pose proof (precompute_K_outcome X) as H. split; [split|].
  - intros [K HK]. rewrite HK in H. destruct H as (Hlen & _).
    intros a b Ha Hb.
    apply list_elem_of_lookup in Ha as [i Hi].
    apply list_elem_of_lookup in Hb as [j Hj].
    specialize (Hlen i j (lookup_lt_Some _ _ _ Hi) (lookup_lt_Some _ _ _ Hj)).
    unfold row_of in Hlen. by rewrite Hi, Hj in Hlen.
  - intros Hall. destruct (experiments.precompute_K X) as [K|e]; [by eexists|].
    exfalso. destruct H as (_ & a & b & Ha & Hb & Hne). apply Hne.
    destruct (lookup_lt_is_Some_2 X a Ha) as [xa Hxa].
    destruct (lookup_lt_is_Some_2 X b Hb) as [xb Hxb].
    unfold row_of. rewrite Hxa, Hxb. simpl.
    apply Hall; apply list_elem_of_lookup; eauto.
  - intros K HK. rewrite HK in H. destruct H as (_ & HM & Hent).
    split; [done|]. intros i j.
    destruct (decide (i < length X)%nat) as [Hi|Hi];
      destruct (decide (j < length X)%nat) as [Hj|Hj].
    + rewrite !Hent by done. by rewrite Nat.max_comm, Nat.min_comm.
    + unfold entry.
      rewrite (proj2 (lookup_ge_None K j)) by (rewrite (proj1 HM); lia).
      destruct (K !! i) as [row|] eqn:Hrow; [|done]. simpl.
      apply lookup_ge_None.
      rewrite (proj1 (is_matrix_lookup _ _ _ _ _ HM Hrow)). lia.
    + unfold entry.
      rewrite (proj2 (lookup_ge_None K i)) by (rewrite (proj1 HM); lia).
      destruct (K !! j) as [row|] eqn:Hrow; [|done]. simpl. symmetry.
      apply lookup_ge_None.
      rewrite (proj1 (is_matrix_lookup _ _ _ _ _ HM Hrow)). lia.
    + unfold entry.
      by rewrite !(proj2 (lookup_ge_None K _)) by (rewrite (proj1 HM); lia).
Qed.

(** X2: augmenting the kernel matrix of [X] with [x] gives the kernel
    matrix of [X] with [x] appended: the incremental update agrees with
    a rebuild from scratch. *)
Theorem augment_agrees_with_rebuild
    (X : list (list npfloat)) (x : list npfloat) :
  Forall (fun v => length v = length x) X ->
  exists K K',
    experiments.precompute_K X = Ret K /\
    experiments.augment_K_precomputed K X x = Ret K' /\
    experiments.precompute_K (X ++ [x]) = Ret K'.
Proof.
  intros Hlen.
  assert (Hall : forall Y, Forall (fun v => length v = length x) Y ->
            exists K, experiments.precompute_K Y = Ret K /\
              is_matrix (length Y) (length Y) K /\
              forall a b, (a < length Y)%nat -> (b < length Y)%nat ->
                entry K a b
                = Some (kernel (row_of Y (a `max` b)) (row_of Y (a `min` b)))).
  { intros Y HY. pose proof (precompute_K_outcome Y) as H.
    destruct (experiments.precompute_K Y) as [K|e].
    - exists K. split; [done|]. by destruct H as (_ & ? & ?).
    - exfalso. destruct H as (_ & a & b & Ha & Hb & Hne). apply Hne.
      destruct (lookup_lt_is_Some_2 Y a Ha) as [xa Hxa].
      destruct (lookup_lt_is_Some_2 Y b Hb) as [xb Hxb].
      unfold row_of. rewrite Hxa, Hxb. simpl.
      by rewrite (Forall_lookup_1 _ _ _ _ HY Hxa),
        (Forall_lookup_1 _ _ _ _ HY Hxb). }
  destruct (Hall X Hlen) as (K & HK & HM & Hent).
  destruct (Hall (X ++ [x])) as (K2 & HK2 & HM2 & Hent2).
  { apply Forall_app. split; [done|]. by apply Forall_singleton. }
  destruct (augment_K_precomputed_spec K X x HM Hlen)
    as (K1 & HK1 & HM1 & Hblock & Hborder & Hcorner).
  rewrite length_app in HM2, Hent2. simpl in HM2, Hent2.
  exists K, K1. split; [done|]. split; [done|]. rewrite HK2. f_equal.
  apply (matrix_ext _ _ _ _ HM2 HM1). intros a b Ha Hb.
  rewrite Hent2 by done.
  assert (Hrow : forall i, (i < length X)%nat ->
            row_of (X ++ [x]) i = row_of X i).
  { intros i Hi. unfold row_of. by rewrite lookup_app_l. }
  assert (Hlast : row_of (X ++ [x]) (length X) = x).
  { unfold row_of. rewrite lookup_app_r by lia.
    by rewrite Nat.sub_diag. }
  destruct (decide (a < length X)%nat) as [Ha'|Ha'];
    destruct (decide (b < length X)%nat) as [Hb'|Hb'].
  - rewrite Hblock, Hent by done. rewrite !Hrow by lia. done.
  - assert (b = length X) as -> by lia.
    replace (a `max` length X)%nat with (length X) by lia.
    replace (a `min` length X)%nat with a by lia.
    rewrite Hlast, Hrow by done.
    rewrite (proj2 (Hborder a Ha')). by rewrite kernel_comm.
  - assert (a = length X) as -> by lia.
    replace (length X `max` b)%nat with (length X) by lia.
    replace (length X `min` b)%nat with b by lia.
    rewrite Hlast, Hrow by done.
    rewrite (proj1 (Hborder b Hb')). by rewrite kernel_comm.
  - assert (a = length X) as -> by lia. assert (b = length X) as -> by lia.
    rewrite Nat.max_id, Nat.min_id, Hlast. by rewrite Hcorner.
Qed.

Lemma augment_agrees_with_rebuild_witness :
  exists K K',
    experiments.precompute_K (reals <$> [[1; 2]; [0; 3]]) = Ret K /\
    experiments.augment_K_precomputed K (reals <$> [[1; 2]; [0; 3]])
      (reals [5; 1]) = Ret K' /\
    experiments.precompute_K ((reals <$> [[1; 2]; [0; 3]]) ++ [reals [5; 1]])
      = Ret K'.
Proof.
  apply (augment_agrees_with_rebuild (reals <$> [[1; 2]; [0; 3]])
           (reals [5; 1])).
  repeat constructor.
Defined.

(** X3: [augment_K_precomputed] keeps a symmetric matrix symmetric. *)
Theorem augment_preserves_symmetry
    (K : matrix) (X_train : list (list npfloat)) (x_test : list npfloat) :
  is_matrix (length X_train) (length X_train) K ->
  Forall (fun v => length v = length x_test) X_train ->
  (forall a b, entry K a b = entry K b a) ->
  exists K_aug,
    experiments.augment_K_precomputed K X_train x_test = Ret K_aug /\
    forall a b, (a <= length X_train)%nat -> (b <= length X_train)%nat ->
      entry K_aug a b = entry K_aug b a.
Proof.
  intros HM Hlen Hsym.
  destruct (augment_K_precomputed_spec K X_train x_test HM Hlen)
    as (K1 & HK1 & HM1 & Hblock & Hborder & Hcorner).
  exists K1. split; [done|]. intros a b Ha Hb.
  destruct (decide (a < length X_train)%nat) as [Ha'|Ha'];
    destruct (decide (b < length X_train)%nat) as [Hb'|Hb'].
  - by rewrite !Hblock by done.
  - assert (b = length X_train) as -> by lia.
    destruct (Hborder a Ha') as [-> ->]. done.
  - assert (a = length X_train) as -> by lia.
    destruct (Hborder b Hb') as [-> ->]. done.
  - assert (a = length X_train) as -> by lia.
    by assert (b = length X_train) as -> by lia.
Qed.

Lemma augment_preserves_symmetry_witness :
  exists K_aug,
    experiments.augment_K_precomputed [[Fin 2; Fin 3]; [Fin 3; Fin 5]]
      (reals <$> [[1; 0]; [1; 1]]) (reals [2; 1]) = Ret K_aug /\
    forall a b, (a <= 2)%nat -> (b <= 2)%nat ->
      entry K_aug a b = entry K_aug b a.
Proof.
  refine (augment_preserves_symmetry [[Fin 2; Fin 3]; [Fin 3; Fin 5]]
            (reals <$> [[1; 0]; [1; 1]]) (reals [2; 1]) _ _ _).
  - split; [reflexivity|]. repeat constructor.
  - repeat constructor.
  - intros a b. destruct a as [|[|[|a]]], b as [|[|[|b]]]; reflexivity.
Defined.

Lemma augment_loop_outcome (X : list (list npfloat)) (x : list npfloat)
    (K0 : matrix) :
  is_matrix (length X + 1) (length X + 1) K0 ->
  match
    for_each (range (length X)) (fun i K_aug =>
      Xi ← index X i;
      d ← np.dot Xi x;
      K_aug ← np.set2 K_aug (-1) (Z.of_nat i) (np.add (Fin 1) d);
      v ← np.get2 K_aug (-1) (Z.of_nat i);
      np.set2 K_aug (Z.of_nat i) (-1) v) K0
  with
  | Ret K1 => Forall (fun v => length v = length x) X
  | Raise e => e = "ValueError"%string
  end.
Proof.
  intros HM0.
  pose proof (for_each_rule
    (fun i K_aug => is_matrix (length X + 1) (length X + 1) K_aug /\
       forall a, (a < i)%nat -> length (row_of X a) = length x)
    (fun e => e = "ValueError"%string) (range (length X))
    (fun i K_aug =>
      Xi ← index X i;
      d ← np.dot Xi x;
      K_aug ← np.set2 K_aug (-1) (Z.of_nat i) (np.add (Fin 1) d);
      v ← np.get2 K_aug (-1) (Z.of_nat i);
      np.set2 K_aug (Z.of_nat i) (-1) v) K0) as Hloop.
  rewrite length_range in Hloop.
  match type of Hloop with ?P -> ?Q -> ?C => assert (HC : C) end.
  { apply Hloop; clear Hloop.
    - split; [done|]. intros a Ha. lia.
    - intros k i K' Hk [HM Hlen]. apply lookup_range in Hk as [-> Hk].
      rewrite (index_row_of X k) by done. simpl. unfold np.dot.
      destruct (decide (length (row_of X k) = length x)) as [Heq|Hne];
        simpl; [|done].
      destruct (set2_spec _ _ K' (-1) (Z.of_nat k) (length X) k
                  (np.add (Fin 1) (np.sum (zip_with np.mul (row_of X k) x)))
                  HM) as (K1 & -> & HM1 & Hent1);
        [apply norm_index_last|apply norm_index_nat; lia|].
      simpl.
      rewrite (get2_spec _ _ K1 (-1) (Z.of_nat k) (length X) k
                 (np.add (Fin 1) (np.sum (zip_with np.mul (row_of X k) x)))
                 HM1);
        [|apply norm_index_last|apply norm_index_nat; lia|].
      2:{ rewrite Hent1. by rewrite decide_True. }
      simpl.
      destruct (set2_spec _ _ K1 (Z.of_nat k) (-1) k (length X)
                  (np.add (Fin 1) (np.sum (zip_with np.mul (row_of X k) x)))
                  HM1) as (K2 & -> & HM2 & _);
        [apply norm_index_nat; lia|apply norm_index_last|].
      split; [done|]. intros a Ha.
      destruct (decide (a = k)) as [->|]; [done|]. apply Hlen. lia. }
  destruct (for_each _ _ K0) as [K1|e]; [|done].
  destruct HC as [_ Hlen]. apply Forall_lookup_2. intros i v Hi.
  specialize (Hlen i (lookup_lt_Some _ _ _ Hi)).
  unfold row_of in Hlen. by rewrite Hi in Hlen.
Qed.

(** X4: given an n x n matrix, [augment_K_precomputed] raises numpy's
    [ValueError] as soon as one training vector differs in length from
    [x_test]; no matrix is returned. *)
Theorem augment_dimension_mismatch
    (K : matrix) (X_train : list (list npfloat)) (x_test v : list npfloat) :
  is_matrix (length X_train) (length X_train) K ->
  v ∈ X_train -> length v <> length x_test ->
  experiments.augment_K_precomputed K X_train x_test = Raise "ValueError".
Proof.
  intros HM Hv Hne. unfold experiments.augment_K_precomputed.
  destruct (assign_block_spec (length X_train) 1 1
              (np.zeros (length X_train + 1) (length X_train + 1)) K
              (zeros_is_matrix _ _) HM) as (K0 & -> & HM0 & _).
  simpl. pose proof (augment_loop_outcome X_train x_test K0 HM0) as H.
  destruct (for_each _ _ K0) as [K1|e]; simpl.
  - exfalso. apply Hne. by apply (proj1 (Forall_forall _ _) H).
  - by rewrite H.
Qed.

Lemma augment_dimension_mismatch_witness :
  experiments.augment_K_precomputed [[Fin 2]] [reals [1; 0]] (reals [2])
  = Raise "ValueError".
Proof.
  apply (augment_dimension_mismatch [[Fin 2]] [reals [1; 0]] (reals [2])
           (reals [1; 0])).
  - split; [reflexivity|]. repeat constructor.
  - apply elem_of_cons. by left.
  - simpl. lia.
Defined.

Lemma broadcast_axis_outcome {A} n (l : list A) :
  (exists l', broadcast_axis n l = Ret l') \/
  broadcast_axis n l = Raise "ValueError".
Proof.
  unfold broadcast_axis. destruct (decide (length l = n)); [left; by eexists|].
  destruct l as [|x [|y l]]; [by right|left; by eexists|by right].
Qed.

Lemma mapM_broadcast_axis c (V : matrix) :
  (exists rows, mapM (broadcast_axis c) V = Ret rows /\
                length rows = length V) \/
  mapM (broadcast_axis c) V = Raise "ValueError".
Proof.
  induction V as [|row V IH]; [left; by exists []|].
  simpl. destruct (broadcast_axis_outcome c row) as [[r' ->]| ->];
    simpl; [|by right].
  destruct IH as [(rows & -> & Hl)| ->]; [left|by right].
  simpl. eexists. split; [done|]. simpl. by rewrite Hl.
Qed.

(** X5: a matrix [K] whose number of rows is neither [len(X_train)] nor
    1 cannot be written into the top-left block:
    [augment_K_precomputed] raises [ValueError] before it reads a
    vector. *)
Theorem augment_wrong_shape
    (K : matrix) (X_train : list (list npfloat)) (x_test : list npfloat) :
  length K <> length X_train -> length K <> 1%nat ->
  experiments.augment_K_precomputed K X_train x_test = Raise "ValueError".
Proof.
  intros Hn H1. unfold experiments.augment_K_precomputed, assign_block,
    broadcast_to.
  destruct (mapM_broadcast_axis (length X_train) K)
    as [(rows & -> & Hl)| ->]; [|done].
  simpl. unfold broadcast_axis. rewrite decide_False by lia.
  destruct rows as [|r [|r' rows]]; simpl in *; [done|lia|done].
Qed.

Lemma augment_wrong_shape_witness :
  experiments.augment_K_precomputed
    [[Fin 1; Fin 0]; [Fin 0; Fin 1]] [reals [1]; reals [2]; reals [3]]
    (reals [4]) = Raise "ValueError".
Proof.
  apply (augment_wrong_shape [[Fin 1; Fin 0]; [Fin 0; Fin 1]]
           [reals [1]; reals [2]; reals [3]] (reals [4])); simpl; lia.
Defined.

(** X6: a 1 x 1 matrix is accepted for any number of training vectors:
    numpy broadcasts its single entry over the whole top-left block, so
    the call behaves as on the n x n matrix filled with that entry. *)
Theorem augment_broadcasts_1x1
    (v : npfloat) (X_train : list (list npfloat)) (x_test : list npfloat) :
  experiments.augment_K_precomputed [[v]] X_train x_test
  = experiments.augment_K_precomputed
      (replicate (length X_train) (replicate (length X_train) v))
      X_train x_test.
Proof.
  unfold experiments.augment_K_precomputed, assign_block.
  assert (Hb : broadcast_to (length X_train) (length X_train) [[v]]
               = Ret (replicate (length X_train)
                        (replicate (length X_train) v))).
  { assert (Hone : forall (A : Type) (a : A),
              broadcast_axis (length X_train) [a]
              = Ret (replicate (length X_train) a)).
    { intros A a. unfold broadcast_axis. simpl.
      destruct (decide (1%nat = length X_train)) as [<-|Hn]; done. }
    unfold broadcast_to. simpl. rewrite Hone. simpl. apply Hone. }
  rewrite Hb, broadcast_to_same; [done|].
  split; [apply length_replicate|].
  apply Forall_replicate, length_replicate.
Qed.

(** * Further properties of the evaluators *)

Lemma take_outcome {A} (a : list A) (order : list nat) :
  match np.take a order with
  | Ret l => Forall (fun i => (i < length a)%nat) order
  | Raise e => e = "IndexError"%string
  end.
Proof.
  unfold np.take. induction order as [|i order IH]; simpl; [done|].
  destruct (a !! i) as [x|] eqn:Hx; simpl; [|done].
  destruct (mapM _ order) as [l|e]; simpl; [|done].
  apply Forall_cons_2; [by eapply lookup_lt_Some|done].
Qed.

Section evaluator_edges.
Context `{Argsort}.

Lemma take_pred_too_short (y_ pred : list npfloat) :
  (length pred < length y_)%nat ->
  np.take pred (argsort y_) = Raise "IndexError".
Proof.
  intros Hlt. pose proof (take_outcome pred (argsort y_)) as Ho.
  destruct (np.take pred (argsort y_)) as [l|e]; [|by rewrite Ho].
  exfalso. rewrite (argsort_perm y_) in Ho.
  apply (proj1 (Forall_forall _ _)) with (x := length pred) in Ho; [lia|].
  apply elem_of_seq. lia.
Qed.

Lemma take_targets (y_ : list npfloat) :
  exists ys, np.take y_ (argsort y_) = Ret ys.
Proof.
  eexists. apply (take_in_range NaN).
  eapply perm_seq_in_range; [apply argsort_perm|done].
Qed.

(** X7: with fewer predictions than targets each evaluator raises
    [IndexError] (from [pred[order]]); none pads or truncates. *)
Theorem evaluators_raise_on_short_predictions (y_ pred : list npfloat) :
  (length pred < length y_)%nat ->
  experiments.compute_rmse y_ pred = Raise "IndexError" /\
  experiments.compute_r2 y_ pred = Raise "IndexError" /\
  experiments.compute_MAPE y_ pred = Raise "IndexError".
Proof.
  intros Hlt. destruct (take_targets y_) as [ys Hys].
  pose proof (take_pred_too_short y_ pred Hlt) as Hp.
  unfold experiments.compute_rmse, experiments.compute_r2,
    experiments.compute_MAPE.
  by rewrite Hys, Hp.
Qed.

(** X8: predictions beyond the number of targets are ignored without an
    error: each evaluator returns what it returns on the predictions
    cut to the length of the targets. *)
Theorem evaluators_ignore_extra_predictions (y_ pred : list npfloat) :
  (length y_ <= length pred)%nat ->
  experiments.compute_rmse y_ pred
    = experiments.compute_rmse y_ (take (length y_) pred) /\
  experiments.compute_r2 y_ pred
    = experiments.compute_r2 y_ (take (length y_) pred) /\
  experiments.compute_MAPE y_ pred
    = experiments.compute_MAPE y_ (take (length y_) pred).
Proof.
  intros Hlen.
  assert (Hl : (length y_ <= length (take (length y_) pred))%nat)
    by (rewrite length_take; lia).
  rewrite !compute_rmse_unsorted, !compute_r2_unsorted,
    !compute_MAPE_unsorted by done.
  unfold rmse_of, r2_of, mape_of, experiments.r2_num.
  by rewrite zip_with_take_r, zip_with_take_l.
Qed.

(** X9: on an empty array of targets each evaluator returns [nan]
    (numpy's mean of nothing, and 0/0 in R2), whatever the
    predictions; none raises. *)
Theorem evaluators_nan_on_empty_targets (pred : list npfloat) :
  experiments.compute_rmse [] pred = Ret NaN /\
  experiments.compute_r2 [] pred = Ret NaN /\
  experiments.compute_MAPE [] pred = Ret NaN.
Proof.
  rewrite compute_rmse_unsorted, compute_r2_unsorted,
    compute_MAPE_unsorted by (simpl; lia).
  unfold rmse_of, r2_of, mape_of, experiments.r2_num, experiments.r2_denum.
  rewrite zip_with_nil_r. simpl.
  unfold np.mean, np.sum, np.div. simpl.
  rewrite (sign_Eq 0) by done. done.
Qed.

End evaluator_edges.

Lemma evaluators_raise_on_short_predictions_witness :
  experiments.compute_rmse (reals [1; 2]) (reals [1]) = Raise "IndexError" /\
  experiments.compute_r2 (reals [1; 2]) (reals [1]) = Raise "IndexError" /\
  experiments.compute_MAPE (reals [1; 2]) (reals [1]) = Raise "IndexError".
Proof.
  apply (evaluators_raise_on_short_predictions (reals [1; 2]) (reals [1])).
  simpl. lia.
Defined.

Lemma evaluators_ignore_extra_predictions_witness :
  experiments.compute_rmse (reals [1; 2]) (reals [1; 3; 7])
    = experiments.compute_rmse (reals [1; 2])
        (take (length (reals [1; 2])) (reals [1; 3; 7])) /\
  experiments.compute_r2 (reals [1; 2]) (reals [1; 3; 7])
    = experiments.compute_r2 (reals [1; 2])
        (take (length (reals [1; 2])) (reals [1; 3; 7])) /\
  experiments.compute_MAPE (reals [1; 2]) (reals [1; 3; 7])
    = experiments.compute_MAPE (reals [1; 2])
        (take (length (reals [1; 2])) (reals [1; 3; 7])).
Proof.
  apply (evaluators_ignore_extra_predictions (reals [1; 2]) (reals [1; 3; 7])).
  simpl. lia.
Defined.

(** ** Closed forms on real vectors *)

(** The squared errors that RMSE averages. *)
Definition sq_err (y pred : list R) : list R :=
  zip_with (fun a b => (a - b) * (a - b)) y pred.

Lemma sq_err_reals y p :
  np.square <$> zip_with np.sub (reals y) (reals p) = reals (sq_err y p).
Proof.
  revert p. induction y as [|a y IH]; intros [|b p]; try done.
  change (reals (a :: y)) with (Fin a :: reals y).
  change (reals (b :: p)) with (Fin b :: reals p).
  simpl. change (reals (?x :: ?l)) with (Fin x :: reals l).
  f_equal. apply IH.
Qed.

Lemma sq_err_nonneg y p : Forall (fun x => 0 <= x) (sq_err y p).
Proof.
  unfold sq_err. revert p. induction y as [|a y IH]; intros [|b p]; simpl;
    [apply Forall_nil_2..|].
  apply Forall_cons_2; [exact (Rle_0_sqr (a - b))|apply IH].
Qed.

Lemma sq_err_zero y p :
  length y = length p -> (Forall (fun x => x = 0) (sq_err y p) <-> y = p).
Proof.
  unfold sq_err. revert p. induction y as [|a y IH]; intros [|b p] Hlen;
    try done; simpl in *.
  rewrite Forall_cons, IH by lia. split.
  - intros [Hab ->]. f_equal. nra.
  - intros Heq. simplify_eq. split; [lra|done].
Qed.

Lemma Rsum_zero_inv l :
  Forall (fun x => 0 <= x) l -> Rsum l = 0 -> Forall (fun x => x = 0) l.
Proof.
  induction 1 as [|x l Hx Hl IH]; intros Hs; [done|]. simpl in Hs.
  pose proof (Rsum_nonneg l Hl).
  apply Forall_cons_2; [lra|apply IH; lra].
Qed.

Lemma Rdiv_nonneg a b : 0 <= a -> 0 < b -> 0 <= a / b.
Proof.
  intros Ha Hb. unfold Rdiv. pose proof (Rinv_0_lt_compat b Hb). nra.
Qed.

Lemma Rmean_nonneg l : Forall (fun x => 0 <= x) l -> 0 <= Rmean l.
Proof.
  intros Hl. unfold Rmean. destruct l as [|x l].
  - simpl. rewrite Rdiv_0_l. lra.
  - apply Rdiv_nonneg; [by apply Rsum_nonneg|].
    by apply INR_length_pos.
Qed.

(** ** Signs of the metrics *)

Lemma square_not_negative x : not_negative (np.square x).
Proof. destruct x; simpl; [nra|done..]. Qed.

Lemma add_not_negative x y :
  not_negative x -> not_negative y -> not_negative (np.add x y).
Proof. destruct x, y; simpl; try done. lra. Qed.

Lemma sum_not_negative l : Forall not_negative l -> not_negative (np.sum l).
Proof.
  induction 1 as [|x l Hx _ IH]; [simpl; lra|].
  rewrite sum_cons. by apply add_not_negative.
Qed.

Lemma squares_not_negative l : Forall not_negative (np.square <$> l).
Proof.
  apply Forall_fmap, Forall_forall. intros x _. apply square_not_negative.
Qed.

Lemma div_not_negative x y :
  not_negative x -> not_negative y -> not_negative (np.div x y).
Proof.
  destruct x as [a| | |], y as [b| | |]; simpl; try done.
  - intros Ha Hb. unfold np.div.
    pose proof (sign_spec a). pose proof (sign_spec b).
    destruct (np.sign b), (np.sign a); simpl; try done; try lra;
      apply Rdiv_nonneg; lra.
  - intros _ Hb. unfold np.div. pose proof (sign_spec b).
    destruct (np.sign b); simpl; try done. lra.
Qed.

Lemma sqrt_not_negative x : not_negative (np.sqrt x).
Proof.
  destruct x as [a| | |]; simpl; try done. unfold np.sqrt.
  destruct (np.sign a); simpl; try done; apply sqrt_pos.
Qed.

Lemma sub_one_at_most_one q :
  not_negative q -> at_most_one (np.sub (Fin 1) q).
Proof. destruct q; simpl; try done. unfold np.sub, np.add. simpl. lra. Qed.

Section evaluators_on_reals.
Context `{Argsort}.

Lemma compute_rmse_reals (y p : list R) :
  length y = length p -> y <> [] ->
  experiments.compute_rmse (reals y) (reals p)
  = Ret (Fin (sqrt (Rmean (sq_err y p)))).
Proof.
  intros Hlen Hne.
  rewrite compute_rmse_unsorted by (rewrite !length_reals; lia).
  unfold rmse_of. rewrite sq_err_reals, mean_reals.
  - unfold np.sqrt. pose proof (Rmean_nonneg _ (sq_err_nonneg y p)).
    pose proof (sign_spec (Rmean (sq_err y p))).
    destruct (np.sign (Rmean (sq_err y p))); [done|lra|done].
  - unfold sq_err. destruct y, p; done.
Qed.

Lemma compute_r2_reals (y p : list R) (a b : R) :
  length y = length p -> a ∈ y -> b ∈ y -> a <> b ->
  experiments.compute_r2 (reals y) (reals p)
  = Ret (Fin (1 - ss_res y p / ss_tot y)).
Proof.
  intros Hlen Ha Hb Hab.
  rewrite compute_r2_unsorted by (rewrite !length_reals; lia).
  unfold r2_of. rewrite r2_num_reals, r2_denum_reals.
  - pose proof (ss_tot_pos _ _ _ Ha Hb Hab). rewrite div_Fin by lra. done.
  - intros ->. by apply elem_of_nil in Ha.
Qed.

Lemma compute_MAPE_reals (y p : list R) :
  length y = length p -> y <> [] -> 0 ∉ y ->
  experiments.compute_MAPE (reals y) (reals p) = Ret (Fin (Rmean (ape y p))).
Proof.
  intros Hlen Hne Hz.
  rewrite compute_MAPE_unsorted by (rewrite !length_reals; lia).
  unfold mape_of. rewrite mape_array_reals, mape_array_no_zero by done.
  rewrite mean_reals; [done|]. unfold ape. destruct y, p; done.
Qed.

(** X10: [compute_rmse] never returns a negative number: given at
    least as many predictions as targets, whatever floats the arrays
    hold, it returns a finite value at least 0, [+inf] or [nan].  On
    predictions equal to finite targets, not empty, it returns 0. *)
Theorem compute_rmse_never_negative (y_ pred : list npfloat) (y : list R) :
  ((length y_ <= length pred)%nat ->
   exists v, experiments.compute_rmse y_ pred = Ret v /\ not_negative v) /\
  (y <> [] ->
   experiments.compute_rmse (reals y) (reals y) = Ret (Fin 0)).
Proof.
  split.
  - intros Hlen.
    destruct (sorted_view y_ pred Hlen) as (ys & ps & Hy & Hp & _).
    unfold experiments.compute_rmse. rewrite Hy. simpl. rewrite Hp. simpl.
    eexists. split; [reflexivity|]. apply sqrt_not_negative.
  - intros Hne. rewrite compute_rmse_reals by done. do 2 f_equal.
    assert (Hz : Forall (fun x => x = 0) (sq_err y y))
      by (by apply sq_err_zero).
    unfold Rmean. rewrite (Rsum_zero _ Hz), Rdiv_0_l. apply sqrt_0.
Qed.

(** X11: on predictions equal to finite targets, [compute_r2] returns 1
    or [nan] (the latter when the denominator is 0), and [compute_MAPE]
    returns 0 whenever the targets are not empty and none is 0. *)
Theorem exact_predictions_score_one_or_nan (y : list R) :
  (experiments.compute_r2 (reals y) (reals y) = Ret (Fin 1) \/
   experiments.compute_r2 (reals y) (reals y) = Ret NaN) /\
  (y <> [] -> 0 ∉ y ->
   experiments.compute_MAPE (reals y) (reals y) = Ret (Fin 0)).
Proof.
  split.
  - rewrite compute_r2_unsorted by done. unfold r2_of.
    rewrite r2_num_reals.
    assert (Hz : ss_res y y = 0).
    { unfold ss_res. apply Rsum_zero. clear. induction y as [|v y IH];
        simpl; [done|]. apply Forall_cons_2; [lra|done]. }
    rewrite Hz.
    assert (Hd : not_negative (experiments.r2_denum (reals y))).
    { unfold experiments.r2_denum.
      apply sum_not_negative, squares_not_negative. }
    destruct (experiments.r2_denum (reals y)) as [d| | |]; simpl in Hd;
      try done.
    + unfold np.div. pose proof (sign_spec d). rewrite (sign_Eq 0) by done.
      destruct (np.sign d); [by right|lra|].
      left. unfold np.sub, np.add. simpl. do 2 f_equal.
      rewrite Rdiv_0_l. lra.
    + left. unfold np.div, np.sub, np.add. simpl. do 2 f_equal. lra.
    + by right.
  - intros Hne Hz. rewrite compute_MAPE_reals by done. do 2 f_equal.
    unfold Rmean. assert (Hs : Rsum (ape y y) = 0).
    { apply Rsum_zero. unfold ape. clear Hne. induction y as [|v y IH];
        simpl; [done|]. apply not_elem_of_cons in Hz as [Hv Hz].
        apply Forall_cons_2; [|by apply IH].
        replace (v - v) with 0 by lra. rewrite Rabs_R0. by apply Rdiv_0_l. }
    rewrite Hs. apply Rdiv_0_l.
Qed.

(** X12: [compute_r2] never returns a number above 1: given at least
    as many predictions as targets, whatever floats the arrays hold, it
    returns a finite value at most 1, [-inf] or [nan]. *)
Theorem compute_r2_never_above_one (y_ pred : list npfloat) :
  (length y_ <= length pred)%nat ->
  exists v, experiments.compute_r2 y_ pred = Ret v /\ at_most_one v.
Proof.
  intros Hlen.
  destruct (sorted_view y_ pred Hlen) as (ys & ps & Hy & Hp & _).
  unfold experiments.compute_r2. rewrite Hp. simpl. rewrite Hy. simpl.
  eexists. split; [reflexivity|].
  apply sub_one_at_most_one, div_not_negative.
  - apply sum_not_negative, squares_not_negative.
  - apply sum_not_negative, squares_not_negative.
Qed.

(** X13: [compute_MAPE] divides by the target, not by its absolute
    value: with all targets positive the result is non-negative, with
    all targets negative it is non-positive. *)
Theorem compute_MAPE_sign_follows_targets (y p : list R) :
  length y = length p -> y <> [] ->
  (Forall (fun v => 0 < v) y ->
     exists m, experiments.compute_MAPE (reals y) (reals p) = Ret (Fin m) /\
               0 <= m) /\
  (Forall (fun v => v < 0) y ->
     exists m, experiments.compute_MAPE (reals y) (reals p) = Ret (Fin m) /\
               m <= 0).
Proof.
  intros Hlen Hne.
  assert (Hn : 0 < INR (length (ape y p))).
  { apply INR_length_pos. unfold ape. destruct y, p; done. }
  split; intros Hy; exists (Rmean (ape y p)).
  - split.
    + apply compute_MAPE_reals; [done..|]. intros Hz.
      apply (proj1 (Forall_forall _ _) Hy) in Hz. lra.
    + apply Rmean_nonneg. unfold ape. clear Hne Hn. revert p Hlen.
      induction Hy as [|v y Hv _ IH]; intros [|b p] Hlen; try done.
      simpl. apply Forall_cons_2; [|apply IH; simpl in Hlen; lia].
      apply Rdiv_nonneg; [apply Rabs_pos|done].
  - split.
    + apply compute_MAPE_reals; [done..|]. intros Hz.
      apply (proj1 (Forall_forall _ _) Hy) in Hz. lra.
    + unfold Rmean.
      assert (Hs : Rsum (ape y p) <= 0).
      { unfold ape. clear Hne Hn. revert p Hlen.
        induction Hy as [|v y Hv _ IH]; intros [|b p] Hlen;
          try done; try (simpl; lra). simpl.
        specialize (IH p ltac:(simpl in Hlen; lia)).
        assert (Rabs (v - b) / v <= 0).
        { pose proof (Rabs_pos (v - b)). unfold Rdiv.
          assert (/ v < 0) by (by apply Rinv_lt_0_compat). nra. }
        lra. }
      unfold Rdiv. assert (0 < / INR (length (ape y p)))
        by (by apply Rinv_0_lt_compat). nra.
Qed.

End evaluators_on_reals.

Lemma compute_rmse_never_negative_witness :
  (exists v,
     experiments.compute_rmse (reals [1; 3]) (reals [2; 3]) = Ret v /\
     not_negative v) /\
  experiments.compute_rmse (reals [1; 3]) (reals [1; 3]) = Ret (Fin 0).
Proof.
  split.
  - apply (compute_rmse_never_negative (reals [1; 3]) (reals [2; 3]) [1; 3]).
    simpl. lia.
  - apply (compute_rmse_never_negative (reals [1; 3]) (reals [2; 3]) [1; 3]).
    discriminate.
Defined.

Lemma exact_predictions_score_one_or_nan_witness :
  experiments.compute_MAPE (reals [1; 3]) (reals [1; 3]) = Ret (Fin 0).
Proof.
  apply (exact_predictions_score_one_or_nan [1; 3]); [discriminate|].
  rewrite !not_elem_of_cons. repeat split; try lra. apply not_elem_of_nil.
Defined.

Lemma compute_r2_never_above_one_witness :
  exists v,
    experiments.compute_r2 (reals [1; 3]) (reals [0; 5]) = Ret v /\
    at_most_one v.
Proof.
  apply (compute_r2_never_above_one (reals [1; 3]) (reals [0; 5])).
  simpl. lia.
Defined.

Lemma compute_MAPE_sign_follows_targets_witness :
  exists m,
    experiments.compute_MAPE (reals [-1; -2]) (reals [1; -2]) = Ret (Fin m) /\
    m <= 0.
Proof.
  apply (compute_MAPE_sign_follows_targets [-1; -2] [1; -2]);
    [reflexivity|discriminate|].
  repeat constructor; lra.
Defined.

(** * Further properties of the diagnostic plot and the entry points *)

Lemma run_bind_lift_raise {A B} (r : result A) e (f : A -> prog B) tr :
  r = Raise e -> (lift r ≫= f) tr = (Raise e, tr).
Proof. intros ->. reflexivity. Qed.

Lemma fancy_outcome {A} (a : list A) (idx : list Z) :
  match fancy a idx with
  | Ret l =>
      Forall (fun i => (- Z.of_nat (length a) <= i < Z.of_nat (length a))%Z)
        idx
  | Raise e => e = "IndexError"%string
  end.
Proof.
  unfold fancy. induction idx as [|i idx IH]; simpl; [done|].
  destruct (np.norm_index (length a) i) as [j|] eqn:Hj; simpl; [|done].
  destruct (a !! j) as [x|]; simpl; [|done].
  destruct (mapM _ idx) as [l|e]; simpl; [|done].
  apply Forall_cons_2; [|done].
  unfold np.norm_index in Hj.
  destruct (decide (i < 0)%Z); destruct (decide _) as [Hr|]; simplify_eq; lia.
Qed.

Lemma fancy_out_of_range {A} (a : list A) (idx : list Z) (i : Z) :
  i ∈ idx ->
  ~ (- Z.of_nat (length a) <= i < Z.of_nat (length a))%Z ->
  fancy a idx = Raise "IndexError".
Proof.
  intros Hi Hout. pose proof (fancy_outcome a idx) as H.
  destruct (fancy a idx) as [l|e]; [|by rewrite H].
  exfalso. apply Hout. by apply (proj1 (Forall_forall _ _) H).
Qed.

Lemma fancy_param_init_short (param_init : list npfloat) :
  (length param_init < 4)%nat ->
  fancy param_init [0; 1; 2; 3]%Z = Raise "IndexError".
Proof.
  intros Hlen. apply (fancy_out_of_range _ _ 3%Z); [|lia].
  rewrite !elem_of_cons. tauto.
Qed.

Section plot_and_entry_points.
Context `{Argsort}.
Variables (bag : Type) (gp : GP_backend).

(** X14: what [plot_fit] does, by its inputs.  On empty targets it
    raises [ValueError] (from [min]) before any plotting call; with
    predictions or deviations shorter than the targets it raises
    [IndexError]; otherwise it returns, having made eight plotting
    calls. *)
Theorem plot_fit_outcome (y_ pred std : list npfloat) (tr : list event) :
  (y_ = [] ->
     experiments.plot_fit y_ pred std tr = (Raise "ValueError", tr)) /\
  (y_ <> [] -> (length pred < length y_)%nat ->
     experiments.plot_fit y_ pred std tr
       = (Raise "IndexError", tr ++ [Plot "plot"])) /\
  (y_ <> [] -> (length y_ <= length pred)%nat ->
   (length std < length y_)%nat ->
     experiments.plot_fit y_ pred std tr
       = (Raise "IndexError", tr ++ [Plot "plot"; Plot "scatter"])) /\
  (y_ <> [] -> (length y_ <= length pred)%nat ->
   (length y_ <= length std)%nat ->
     experiments.plot_fit y_ pred std tr
       = (Ret (), tr ++ [Plot "plot"; Plot "scatter"; Plot "errorbar";
                         Plot "set_ylabel"; Plot "set_xlabel";
                         Plot "text"; Plot "text"; Plot "text"])).
Proof.
  pose proof (argsort_perm y_) as Hperm.
  assert (Hys : np.take y_ (argsort y_)
                = Ret ((fun i => nth i y_ NaN) <$> argsort y_))
    by (apply take_in_range; by eapply perm_seq_in_range).
  unfold experiments.plot_fit. split; [|split; [|split]].
  - intros ->. reflexivity.
  - intros Hne Hlt.
    rewrite (run_bind_lift _ () _ _) by (by destruct y_).
    rewrite run_bind_call, (run_bind_lift _ _ _ _ Hys).
    by rewrite (run_bind_lift_raise _ _ _ _ (take_pred_too_short _ _ Hlt)).
  - intros Hne Hp Hlt.
    rewrite (run_bind_lift _ () _ _) by (by destruct y_).
    rewrite run_bind_call, (run_bind_lift _ _ _ _ Hys).
    rewrite (run_bind_lift _ _ _ _
               (take_in_range NaN pred _ (perm_seq_in_range _ _ _ Hperm Hp))).
    rewrite run_bind_call.
    rewrite (run_bind_lift_raise _ _ _ _ (take_pred_too_short _ _ Hlt)).
    by rewrite <- app_assoc.
  - intros Hne Hp Hs.
    rewrite (run_bind_lift _ () _ _) by (by destruct y_).
    rewrite run_bind_call, (run_bind_lift _ _ _ _ Hys).
    rewrite (run_bind_lift _ _ _ _
               (take_in_range NaN pred _ (perm_seq_in_range _ _ _ Hperm Hp))).
    rewrite run_bind_call.
    rewrite (run_bind_lift _ _ _ _
               (take_in_range NaN std _ (perm_seq_in_range _ _ _ Hperm Hs))).
    rewrite !run_bind_call. unfold call. by rewrite <- !app_assoc.
Qed.

End plot_and_entry_points.

(** [m] never returns, and adds to the trace only events that satisfy
    [P]. *)
Definition aborts (P : event -> Prop) {A} (m : prog A) : Prop :=
  forall tr, Forall P tr ->
    (exists e, (m tr).1 = Raise e) /\ Forall P (m tr).2.

Definition not_training (ev : event) : Prop :=
  match ev with
  | Train _ _ _ => False
  | _ => True
  end.

Lemma aborts_lift_raise P {A B} (e : string) (f : A -> prog B) :
  aborts P (lift (Raise e) ≫= f).
Proof. intros tr Htr. split; [by exists e|done]. Qed.

Lemma aborts_bind P {A B} (m : prog A) (f : A -> prog B) :
  emits P m -> (forall a, aborts P (f a)) -> aborts P (m ≫= f).
Proof.
  intros Hm Hf tr Htr. specialize (Hm tr Htr).
  unfold mbind, prog_bind. destruct (m tr) as [[a|e] tr']; simpl in *.
  - by apply Hf.
  - split; [by exists e|done].
Qed.

Section entry_point_failures.
Context `{Argsort}.
Variables (bag : Type) (gp : GP_backend).

(** X15: without [plot], [experiment_ARD] never returns a result and
    never reaches a training call, whatever its other arguments: the
    read of the unbound [axs] stops it.  When the indexing succeeds and
    [param_init] has three entries the exception is
    [UnboundLocalError]. *)
Theorem experiment_ARD_without_plot_fails
    (data : list bag) (y : matrix) (train_index test_index : list Z)
    (param_init : list npfloat) (RBF full : bool) :
  ((exists e,
      (experiments.experiment_ARD bag gp data y train_index test_index
         param_init RBF false full []).1 = Raise e) /\
   Forall not_training
     (experiments.experiment_ARD bag gp data y train_index test_index
        param_init RBF false full []).2) /\
  ((exists y_train y_test x_train x_test,
      fancy y train_index = Ret y_train /\ fancy y test_index = Ret y_test /\
      fancy data train_index = Ret x_train /\
      fancy data test_index = Ret x_test) ->
   (3 <= length param_init)%nat ->
   (experiments.experiment_ARD bag gp data y train_index test_index
      param_init RBF false full []).1 = Raise "UnboundLocalError").
Proof.
  split.
  - assert (Ha : aborts not_training
              (experiments.experiment_ARD bag gp data y train_index
                 test_index param_init RBF false full)).
    { unfold experiments.experiment_ARD.
      do 4 (apply aborts_bind; [apply emits_lift|intros ?]).
      apply aborts_bind; [apply emits_when, emits_call; exact I|intros ?].
      apply aborts_bind; [apply emits_lift|intros ?].
      apply aborts_bind;
        [destruct RBF; apply emits_call; exact I|intros ?].
      apply aborts_lift_raise. }
    by apply Ha.
  - intros (y_train & y_test & x_train & x_test & ? & ? & ? & ?) Hp.
    destruct (fancy_in_range param_init [0; 1; 2]%Z) as [ps Hps];
      [repeat constructor; lia|].
    unfold experiments.experiment_ARD.
    destruct RBF; unfold when; run_entry_point; reflexivity.
Qed.

(** X16: [naive_experiment] reads [param_init[3]].  With fewer than
    four initial values (its own default has three) and data that
    index correctly, it raises [IndexError] before any model is built
    or trained. *)
Theorem naive_experiment_needs_four_initial_values
    (x : list bag) (y : matrix) (train_index test_index : list Z)
    (param_init : list npfloat) (plot : bool)
    (y_train y_test : matrix) (x_train x_test : list bag) :
  fancy y train_index = Ret y_train ->
  fancy y test_index = Ret y_test ->
  fancy x train_index = Ret x_train ->
  fancy x test_index = Ret x_test ->
  (length param_init < 4)%nat ->
  experiments.naive_experiment bag gp x y train_index test_index
    param_init plot []
  = (Raise "IndexError", if plot then [Plot "subplots"] else []).
Proof.
  intros ? ? ? ? Hp. pose proof (fancy_param_init_short _ Hp) as Hps.
  unfold experiments.naive_experiment.
  destruct plot; unfold when; run_entry_point;
    by rewrite (run_bind_lift_raise _ _ _ _ Hps).
Qed.

(** X17: an index of [train_index] outside [-len(y), len(y))] makes
    each entry point raise [IndexError] at [y[train_index]], before
    any call into the Gaussian-process modules. *)
Theorem entry_points_raise_on_bad_index
    (x : list bag) (K : matrix) (y : matrix)
    (train_index test_index : list Z) (param_init : list npfloat) (i : Z) :
  i ∈ train_index ->
  ~ (- Z.of_nat (length y) <= i < Z.of_nat (length y))%Z ->
  (forall plot,
     experiments.naive_experiment bag gp x y train_index test_index
       param_init plot []
     = (Raise "IndexError", if plot then [Plot "subplots"] else [])) /\
  (forall RBF plot,
     experiments.experiment_precomputed gp K y train_index test_index
       param_init RBF plot []
     = (Raise "IndexError", if plot then [Plot "subplots"] else [])) /\
  (forall RBF plot full,
     experiments.experiment_ARD bag gp x y train_index test_index
       param_init RBF plot full []
     = (Raise "IndexError", [])).
Proof.
  intros Hi Hout. pose proof (fancy_out_of_range y _ _ Hi Hout) as Hy.
  repeat split; intros.
  - unfold experiments.naive_experiment.
    destruct plot; unfold when; run_entry_point;
      by rewrite (run_bind_lift_raise _ _ _ _ Hy).
  - unfold experiments.experiment_precomputed.
    destruct plot; unfold when; run_entry_point;
      by rewrite (run_bind_lift_raise _ _ _ _ Hy).
  - unfold experiments.experiment_ARD.
    by rewrite (run_bind_lift_raise _ _ _ _ Hy).
Qed.

End entry_point_failures.

Lemma naive_experiment_needs_four_initial_values_witness :
  experiments.naive_experiment unit toy_gp [(); ()] toy_y [0%Z] [1%Z]
    [Fin 0; Fin 0; Fin 0] false []
  = (Raise "IndexError", []).
Proof.
  apply (naive_experiment_needs_four_initial_values unit toy_gp [(); ()]
           toy_y [0%Z] [1%Z] [Fin 0; Fin 0; Fin 0] false
           [[Fin 1]] [[Fin 2]] [()] [()]); try reflexivity.
  simpl. lia.
Defined.

Lemma entry_points_raise_on_bad_index_witness :
  (forall plot,
     experiments.naive_experiment unit toy_gp [(); ()] toy_y [0%Z; 2%Z]
       [1%Z] [Fin 0; Fin 0; Fin 0; Fin 0] plot []
     = (Raise "IndexError", if plot then [Plot "subplots"] else [])) /\
  (forall RBF plot,
     experiments.experiment_precomputed toy_gp [] toy_y [0%Z; 2%Z] [1%Z]
       [Fin 0; Fin 0; Fin 0; Fin 0] RBF plot []
     = (Raise "IndexError", if plot then [Plot "subplots"] else [])) /\
  (forall RBF plot full,
     experiments.experiment_ARD unit toy_gp [(); ()] toy_y [0%Z; 2%Z] [1%Z]
       [Fin 0; Fin 0; Fin 0; Fin 0] RBF plot full []
     = (Raise "IndexError", [])).
Proof.
  apply (entry_points_raise_on_bad_index unit toy_gp [(); ()] [] toy_y
           [0%Z; 2%Z] [1%Z] [Fin 0; Fin 0; Fin 0; Fin 0] 2%Z).
  - rewrite !elem_of_cons. tauto.
  - simpl. lia.
Defined.

Lemma statistics_of_no_targets (p : list npfloat) :
  rmse_of [] p = NaN /\ r2_of [] p = NaN /\ mape_of [] p = NaN.
Proof.
  unfold rmse_of, r2_of, mape_of, experiments.r2_num, experiments.r2_denum.
  rewrite zip_with_nil_r. simpl. unfold np.mean, np.sum, np.div. simpl.
  rewrite (sign_Eq 0) by done. done.
Qed.

Lemma run_bind_raise {A B} (m : prog A) (k : A -> prog B) tr e tr' :
  m tr = (Raise e, tr') -> (m ≫= k) tr = (Raise e, tr').
Proof. intros Hm. unfold mbind, prog_bind. by rewrite Hm. Qed.

Section empty_test_split.
Context `{Argsort}.
Variables (bag : Type) (gp : GP_backend).
Variables (x : list bag) (K_precomputed y : matrix).
Variables (train_index : list Z) (param_init : list npfloat).
Variables (y_train : matrix) (x_train : list bag).
Variables (yt mt mte : list npfloat).

Hypothesis Hy_train : fancy y train_index = Ret y_train.
Hypothesis Hx_train : fancy x train_index = Ret x_train.
Hypothesis Hyt : col0 y_train = Ret yt.
Hypothesis Hmt : col0 (mu (predict_train gp)) = Ret mt.
Hypothesis Hmte : col0 (mu (predict_test gp)) = Ret mte.
Hypothesis Hlen_t : (length yt <= length mt)%nat.
Hypothesis Hstd_t : (length yt <= length (stdv (predict_train gp)))%nat.
Hypothesis Hne_t : yt <> [].
Hypothesis Hp : (4 <= length param_init)%nat.

Lemma plot_fit_no_targets {B} pred std (k : unit -> prog B) tr :
  (experiments.plot_fit [] pred std ≫= k) tr = (Raise "ValueError", tr).
Proof. reflexivity. Qed.

(** X18: with an empty test split, [naive_experiment] and
    [experiment_precomputed] still train and return, the three test
    metrics being [nan]; with [plot] set they raise [ValueError]
    instead, from the plot of the empty test targets. *)
Theorem empty_test_split_nan_or_plot_error :
  (experiments.naive_experiment bag gp x y train_index [] param_init
     false []).1
    = Ret [PyFloat (rmse_of yt mt); PyFloat (r2_of yt mt);
           PyFloat (mape_of yt mt); PyFloat NaN; PyFloat NaN; PyFloat NaN] /\
  (experiments.naive_experiment bag gp x y train_index [] param_init
     true []).1 = Raise "ValueError" /\
  (forall RBF,
     (experiments.experiment_precomputed gp K_precomputed y train_index []
        param_init RBF false []).1
       = Ret [PyFloat (rmse_of yt mt); PyFloat (r2_of yt mt);
              PyFloat (mape_of yt mt);
              PyFloat NaN; PyFloat NaN; PyFloat NaN]) /\
  (forall RBF,
     (experiments.experiment_precomputed gp K_precomputed y train_index []
        param_init RBF true []).1 = Raise "ValueError").
Proof.
  destruct (fancy_in_range param_init [0; 1; 2; 3]%Z) as [ps Hps];
    [repeat constructor; lia|].
  destruct (fancy_in_range param_init [0; 1; 2]%Z) as [ps' Hps'];
    [repeat constructor; lia|].
  assert (Hy_test : fancy y [] = Ret []) by reflexivity.
  assert (Hx_test : fancy x [] = Ret []) by reflexivity.
  assert (Hyte : col0 [] = Ret []) by reflexivity.
  assert (Hlen_te : (length (@nil npfloat) <= length mte)%nat)
    by (simpl; lia).
  destruct (statistics_of_no_targets mte) as (Hr & Hr2 & Hm).
  repeat split; intros.
  - unfold experiments.naive_experiment, when. run_entry_point.
    simpl. by rewrite Hr, Hr2, Hm.
  - unfold experiments.naive_experiment, when. run_entry_point.
    by rewrite plot_fit_no_targets.
  - unfold experiments.experiment_precomputed, when.
    destruct RBF; run_entry_point; simpl; by rewrite Hr, Hr2, Hm.
  - unfold experiments.experiment_precomputed, when.
    destruct RBF; run_entry_point; by rewrite plot_fit_no_targets.
Qed.

End empty_test_split.

Lemma empty_test_split_nan_or_plot_error_witness :
  (experiments.naive_experiment unit toy_gp [(); ()] toy_y [0%Z] []
     [Fin 0; Fin 0; Fin 0; Fin 0] false []).1
    = Ret [PyFloat (rmse_of [Fin 1] [Fin 1]); PyFloat (r2_of [Fin 1] [Fin 1]);
           PyFloat (mape_of [Fin 1] [Fin 1]);
           PyFloat NaN; PyFloat NaN; PyFloat NaN] /\
  (experiments.naive_experiment unit toy_gp [(); ()] toy_y [0%Z] []
     [Fin 0; Fin 0; Fin 0; Fin 0] true []).1 = Raise "ValueError".
Proof.
  destruct (empty_test_split_nan_or_plot_error unit toy_gp [(); ()] [] toy_y
              [0%Z] [Fin 0; Fin 0; Fin 0; Fin 0] [[Fin 1]] [()]
              [Fin 1] [Fin 1] [Fin 2])
    as (H1 & H2 & _); try reflexivity; simpl; try lia; try discriminate.
  split; [exact H1|exact H2].
Defined.

(** * The regression pipeline of kerES *)

Section kerES_model.
Variable item : Type.
Variable shape1 : item -> nat.
Variable LeadLag_fit_transform : list Z -> list (list item) -> list (list item).
Variable AddTime_fit_transform : list (list item) -> list (list item).
Variable trial_mse :
  gmap string (list kerES.hyper) -> list (list item) -> list npfloat -> nat
  -> npfloat.

Abbreviation model :=
  (kerES.model item shape1 LeadLag_fit_transform AddTime_fit_transform
     trial_mse).

(** X19: in the mode 'svr', [model] never returns a score: whatever
    the data and the grid, it raises; once the checks on the data pass,
    the exception is the [AttributeError] of [parameters.keys()] on a
    list. *)
Theorem model_svr_never_returns (X : list (list item)) (y : list npfloat)
    (ll : option (list Z)) (at_ : bool) (NUM_TRIALS : Z)
    (grid : gmap string (list kerES.hyper)) :
  (exists e, model X y ll at_ "svr" NUM_TRIALS grid = Raise e) /\
  (forall x00 X0 X', X = (x00 :: X0) :: X' ->
     shape1 x00 <> 1%nat \/ is_Some ll \/ at_ = true ->
     model X y ll at_ "svr" NUM_TRIALS grid = Raise "AttributeError").
Proof.
  unfold kerES.model.
  rewrite (decide_True (P := "svr" ∈ ["svr"; "krr"]))
    by (apply elem_of_cons; by left).
  simpl. split.
  - destruct X as [|[|x00 X0] X']; simpl; [by eexists..|].
    destruct (decide (shape1 x00 = 1%nat)); simpl.
    + destruct (decide (is_Some ll \/ at_ = true)); simpl; by eexists.
    + by eexists.
  - intros x00 X0 X' -> Hok. simpl.
    destruct (decide (shape1 x00 = 1%nat)); simpl; [|done].
    rewrite decide_True by tauto. done.
Qed.

(** X20: the two checks that [model] makes first.  A mode other than
    'svr' and 'krr' raises [AssertionError] before the data is read;
    so do series of one dimension given with neither [ll] nor [at]. *)
Theorem model_checks_mode_and_dimension (X : list (list item))
    (y : list npfloat) (ll : option (list Z)) (at_ : bool) (mode : string)
    (NUM_TRIALS : Z) (grid : gmap string (list kerES.hyper)) :
  (mode <> "svr" -> mode <> "krr" ->
     model X y ll at_ mode NUM_TRIALS grid = Raise "AssertionError") /\
  (forall x00 X0 X', X = (x00 :: X0) :: X' -> shape1 x00 = 1%nat ->
     mode = "svr" \/ mode = "krr" ->
     model X y None false mode NUM_TRIALS grid = Raise "AssertionError").
Proof.
  unfold kerES.model. split.
  - intros Hs Hk.
    rewrite (decide_False (P := mode ∈ ["svr"; "krr"])); [done|].
    rewrite !elem_of_cons, elem_of_nil. tauto.
  - intros x00 X0 X' -> Hdim Hmode.
    rewrite (decide_True (P := mode ∈ ["svr"; "krr"]))
      by (rewrite !elem_of_cons; tauto).
    simpl. rewrite (decide_True (P := shape1 x00 = 1%nat)) by done.
    destruct (decide (is_Some (@None (list Z)) \/ false = true))
      as [[[? ?]|?]|]; done.
Qed.

End kerES_model.

Lemma dom_krr_default_grid :
  dom kerES.krr_default_grid
  = ({["clf__kernel"; "clf__gamma"; "clf__alpha";
       "expected_signature_transform__order"]} : gset string).
Proof.
  unfold kerES.krr_default_grid.
  rewrite !dom_insert_L, ?dom_singleton_L, ?dom_empty_L. set_solver.
Qed.

Lemma size_inter_eq_iff (A B : gset string) :
  size (A ∩ B) = size B <-> B ⊆ A.
Proof.
  split.
  - intros Hs. assert (Heq : A ∩ B ≡ B).
    { apply set_subseteq_size_equiv; [set_solver|lia]. }
    set_solver.
  - intros Hsub. f_equal. apply leibniz_equiv. set_solver.
Qed.

(** X21: the grid of the kernel-ridge mode.  The user's grid is
    accepted exactly when all its keys are among the four default
    keys; the grid handed to the search then has exactly those four
    keys, each with the user's values where given and the default ones
    elsewhere. *)
Theorem krr_parameters_merge (grid : gmap string (list kerES.hyper)) :
  ((exists p, kerES.krr_parameters grid = Ret p) <->
   dom grid ⊆ dom kerES.krr_default_grid) /\
  (~ dom grid ⊆ dom kerES.krr_default_grid ->
   kerES.krr_parameters grid = Raise "AssertionError") /\
  (forall p, kerES.krr_parameters grid = Ret p ->
     dom p = dom kerES.krr_default_grid /\
     forall k, p !! k = match grid !! k with
                        | Some v => Some v
                        | None => kerES.krr_default_grid !! k
                        end).
Proof.
  unfold kerES.krr_parameters.
  destruct (decide (size (dom kerES.krr_default_grid ∩ dom grid)
                    = size (dom grid))) as [Hs|Hs].
  - apply size_inter_eq_iff in Hs. split; [|split].
    + split; [done|]. intros _. by eexists.
    + intros Hn. by destruct Hn.
    + intros p Hp. simplify_eq. split.
      * rewrite dom_union_L. set_solver.
      * intros k. rewrite lookup_union.
        destruct (grid !! k), (kerES.krr_default_grid !! k); done.
  - assert (Hn : ~ dom grid ⊆ dom kerES.krr_default_grid)
      by (intros Hsub; by apply Hs, size_inter_eq_iff).
    split; [|split]; [|done|done].
    split; [by intros [p Hp]|done].
Qed.



Section kerES_scores.
Variable item : Type.
Variable shape1 : item -> nat.
Variable LeadLag_fit_transform : list Z -> list (list item) -> list (list item).
Variable AddTime_fit_transform : list (list item) -> list (list item).
(** The mean squared error of a trial, when it is a finite number. *)
Variable mse :
  gmap string (list kerES.hyper) -> list (list item) -> list npfloat -> nat
  -> R.

Abbreviation model_finite :=
  (kerES.model item shape1 LeadLag_fit_transform AddTime_fit_transform
     (fun p X y i => Fin (mse p X y i))).


End kerES_scores.


(** * The entry point for bags of arbitrary size *)

Section arbitrary_items.
Context `{Argsort}.
Variables (bag : Type) (gp : GP_backend).

Lemma result_of_on_columns f (y m : matrix) a b v :
  col0 y = Ret a -> col0 m = Ret b -> f a b = Ret v ->
  experiments.result_of (experiments.on_columns f y m) = Ret v.
Proof.
  intros Ha Hb Hv. unfold experiments.result_of, experiments.on_columns.
  rewrite (run_bind_lift _ _ _ _ Ha), (run_bind_lift _ _ _ _ Hb).
  unfold lift. by rewrite Hv.
Qed.

(** X23: [naive_experiment_arbitrary] reads [param_init[3]] too, and
    its split by position cannot fail: with fewer than four initial
    values (its default has three) it raises [IndexError] for every
    data set, every split position and both settings of [plot]. *)
Theorem naive_experiment_arbitrary_needs_four_initial_values
    (x : list bag) (y : matrix) (train_index : Z)
    (param_init : list npfloat) (plot : bool) :
  (length param_init < 4)%nat ->
  experiments.naive_experiment_arbitrary bag gp x y train_index param_init
    plot = Raise "IndexError".
Proof.
  intros Hp. unfold experiments.naive_experiment_arbitrary.
  by rewrite (fancy_param_init_short _ Hp).
Qed.

(** X24: the split by position never fails and loses nothing: for
    every integer [train_index] the two parts of [y] make up [y]
    again.  When the predictions cover the two parts the call returns
    (without [plot]) the six metrics of the two parts; a position at or
    past the end leaves no test part, and its three metrics are
    [nan]. *)
Theorem naive_experiment_arbitrary_split
    (x : list bag) (y : matrix) (train_index : Z)
    (param_init : list npfloat) (yt yte mt mte : list npfloat) :
  let k := experiments.slice_stop (length y) train_index in
  (4 <= length param_init)%nat ->
  col0 (take k y) = Ret yt -> col0 (drop k y) = Ret yte ->
  col0 (mu (predict_train gp)) = Ret mt ->
  col0 (mu (predict_test gp)) = Ret mte ->
  (length yt <= length mt)%nat -> (length yte <= length mte)%nat ->
  take k y ++ drop k y = y /\
  experiments.naive_experiment_arbitrary bag gp x y train_index param_init
    false = Ret (six_metrics yt mt yte mte) /\
  ((Z.of_nat (length y) <= train_index)%Z ->
     yte = [] /\
     experiments.naive_experiment_arbitrary bag gp x y train_index
       param_init false
     = Ret [PyFloat (rmse_of yt mt); PyFloat (r2_of yt mt);
            PyFloat (mape_of yt mt);
            PyFloat NaN; PyFloat NaN; PyFloat NaN]).
Proof.
  intros k Hp Hyt Hyte Hmt Hmte Hlt Hlte.
  destruct (fancy_in_range param_init [0; 1; 2; 3]%Z) as [ps Hps];
    [repeat constructor; lia|].
  assert (Hret : experiments.naive_experiment_arbitrary bag gp x y
                   train_index param_init false
                 = Ret (six_metrics yt mt yte mte)).
  { unfold experiments.naive_experiment_arbitrary. fold k.
    rewrite Hps. simpl.
    rewrite (result_of_on_columns _ _ _ _ _ _ Hyt Hmt
               (compute_r2_unsorted _ _ Hlt)). simpl.
    rewrite (result_of_on_columns _ _ _ _ _ _ Hyte Hmte
               (compute_r2_unsorted _ _ Hlte)). simpl.
    rewrite (result_of_on_columns _ _ _ _ _ _ Hyt Hmt
               (compute_rmse_unsorted _ _ Hlt)). simpl.
    rewrite (result_of_on_columns _ _ _ _ _ _ Hyte Hmte
               (compute_rmse_unsorted _ _ Hlte)). simpl.
    rewrite (result_of_on_columns _ _ _ _ _ _ Hyt Hmt
               (compute_MAPE_unsorted _ _ Hlt)). simpl.
    rewrite (result_of_on_columns _ _ _ _ _ _ Hyte Hmte
               (compute_MAPE_unsorted _ _ Hlte)). done. }
  split; [apply take_drop|]. split; [done|].
  intros Hpast.
  assert (Hk : k = length y).
  { unfold k, experiments.slice_stop.
    rewrite decide_False by lia. lia. }
  assert (Hnil : yte = []).
  { rewrite Hk, drop_all in Hyte.
    change (Ret [] = Ret yte) in Hyte. congruence. }
  split; [done|]. rewrite Hret. subst yte.
  destruct (statistics_of_no_targets mte) as (Hr & Hr2 & Hm).
  unfold six_metrics. by rewrite Hr, Hr2, Hm.
Qed.

End arbitrary_items.

Lemma naive_experiment_arbitrary_needs_four_initial_values_witness :
  experiments.naive_experiment_arbitrary unit toy_gp [(); ()] toy_y 1
    [Fin 0; Fin 0; Fin 0] true = Raise "IndexError".
Proof.
  apply (naive_experiment_arbitrary_needs_four_initial_values unit toy_gp
           [(); ()] toy_y 1 [Fin 0; Fin 0; Fin 0] true).
  simpl. lia.
Defined.

Lemma naive_experiment_arbitrary_split_witness :
  take 1 toy_y ++ drop 1 toy_y = toy_y /\
  experiments.naive_experiment_arbitrary unit toy_gp [(); ()] toy_y 1
    [Fin 0; Fin 0; Fin 0; Fin 0] false
  = Ret (six_metrics [Fin 1] [Fin 1] [Fin 2] [Fin 2]).
Proof.
  destruct (naive_experiment_arbitrary_split unit toy_gp [(); ()] toy_y 1
              [Fin 0; Fin 0; Fin 0; Fin 0] [Fin 1] [Fin 2] [Fin 1] [Fin 2])
    as (H1 & H2 & _); try reflexivity; simpl; try lia.
  split; [exact H1|exact H2].
Defined.
